(** * analyze-disk-performance: a shallow embedding of [main.py]

    The development follows the layout of the program:
    - [BufferFactory]    : [create_bytearray], [create_bytearray_killobytes]
    - [Validation]       : [validate_kwargs] over a small file-system state
    - [ContinuousWriter] : [write_byte_array_continuously] over a clock oracle
    - [ContiguousFiller] : [write_byte_array_contiguously] over a drive with
                           finite free space and a schedule of faults
    - [Benchmark]        : [create_byte_array_high_throughput]
    - [UsageMonitor]     : [disk_usage_monitor] over the successive answers
                           of [event.is_set()] and of the usage probe
    - [Main]             : [main], from the parsed arguments on
    followed by the vocabulary of the statements and, per component, the
    properties proved of it.

    Python integers are [Z]; a [bytearray] is a [list Z] whose elements lie in
    [0,256); an exception is a value of [exn] carried by [result]; a [while]
    loop takes fuel.  The environment enters as oracles: the successive
    values of [time.time()], the successive draws of [random.randint], and
    what happens to each operation on the drive.  Readings of the clock
    are rationals ([Q]): the rounding of floating-point subtraction is not
    modelled, the comparisons the program makes on them are.  A write reaches
    the file at once (the buffering of file objects is not modelled), and
    logging is left out, except for the line the monitor logs each round. *)

From Stdlib Require Import ZArith QArith Qround List Lia Lqa Bool.
From Stdlib Require Import Strings.Byte Strings.Ascii Strings.String.
From stdpp Require Import gmap strings sorting.
Import ListNotations.

Local Open Scope Z_scope.

(** ** Exceptions and results *)

Inductive exn : Type :=
| KeyError
| ValueError
| OSError
| KeyboardInterrupt
| ZeroDivisionError.

Inductive result (A : Type) : Type :=
| Return (a : A)
| Raise (e : exn).

Arguments Return {A} a.
Arguments Raise {A} e.

(** ** Module constants *)

Definition FILL : Z := -1.
Definition DURATION : Q := 5%Q.
Definition ITERATIONS : Z := 10.
Definition SIZE : Z := 1.

(** [bytearray] as the program uses it. *)
Abbreviation bytearray := (list Z).

(** [range(n)] runs [n] times for a positive [n] and not at all otherwise. *)
Definition range_len (n : Z) : nat := Z.to_nat n.

(** * BufferFactory *)

Module BufferFactory.

Section WithRandom.

(** [random.randint(0, 255)]: the [n]-th draw of the generator.  A draw is a
    byte, so its integer value is in range by construction. *)
Variable rand : nat -> Byte.byte.

Definition randint_0_255 (n : nat) : Z := Z.of_N (Byte.to_N (rand n)).

Definition is_byte (x : Z) : bool := (0 <=? x) && (x <? 256).

(** [bytearray(iterable)]: every item must be in [range(0, 256)], the
    constructor raises [ValueError] at the first one that is not. *)
Definition bytearray_of (items : list Z) : result bytearray :=
  if forallb is_byte items then Return items else Raise ValueError.

(** [create_bytearray(count, fill)]; [s] is the number of draws made so far,
    the second component the number of draws afterwards. *)
Definition create_bytearray (count fill : Z) (s : nat)
  : result bytearray * nat :=
  if fill =? FILL then
    (bytearray_of (map (fun i => randint_0_255 (s + i)) (seq 0 (range_len count))),
     (s + range_len count)%nat)
  else
    (bytearray_of (map (fun _ => fill) (seq 0 (range_len count))), s).

(** The loop [for _ in range(count): killobytes_array.extend(deepcopy(killobyte))]. *)
Definition extend_loop (killobyte : bytearray) (count : Z) : bytearray :=
  fold_left (fun killobytes_array _ => killobytes_array ++ killobyte)
            (seq 0 (range_len count)) [].

Definition create_bytearray_killobytes (count fill : Z) (s : nat)
  : result bytearray * nat :=
  match create_bytearray 1024 fill s with
  | (Raise e, s') => (Raise e, s')
  | (Return killobyte, s') => (Return (extend_loop killobyte count), s')
  end.

End WithRandom.

End BufferFactory.

(** * The file system and validation *)

(** The part of the file system the program touches: the set of existing
  directories and the contents of regular files, both under the names the
  program uses for them ('.', '..' and repeated slashes are not resolved).
  Failures of the operating system itself (permissions, a path that is a
  directory, a directory that cannot be made because its name is empty or
  taken, ...) are outside this model: [mkdir] and [open] succeed. *)
Record FS : Type := mkFS {
dirs : gset string;
files : gmap string bytearray
}.

Definition isdir (d : string) (fs : FS) : bool := bool_decide (d ∈ dirs fs).

(** [os.path.exists]. *)
Definition path_exists (p : string) (fs : FS) : bool :=
bool_decide (p ∈ dirs fs) || bool_decide (is_Some (files fs !! p)).

(** [os.mkdir]. *)
Definition mkdir (d : string) (fs : FS) : FS :=
mkFS ({[ d ]} ∪ dirs fs) (files fs).

(** [open(path, 'wb')]: create or truncate. *)
Definition open_wb (path : string) (fs : FS) : FS :=
mkFS (dirs fs) (<[ path := [] ]> (files fs)).

(** [wb.write(data)] on a file opened by [open_wb] or in append mode. *)
Definition file_append (path : string) (data : bytearray) (fs : FS) : FS :=
mkFS (dirs fs) (<[ path := default [] (files fs !! path) ++ data ]> (files fs)).

(** [os.path.getsize(path)]. *)
Definition getsize (path : string) (fs : FS) : result Z :=
match files fs !! path with
| Some content => Return (Z.of_nat (length content))
| None => Raise OSError
end.

(** [os.path.dirname] of [posixpath]: the head up to the last slash, with
  trailing slashes removed unless the head consists of slashes only. *)
Definition is_sep (c : Ascii.ascii) : bool := Ascii.eqb c "/"%char.

Fixpoint drop_while {A : Type} (p : A -> bool) (l : list A) : list A :=
match l with
| [] => []
| x :: l' => if p x then drop_while p l' else l
end.

Definition dirname (p : string) : string :=
let head_rev :=
  drop_while (fun c => negb (is_sep c)) (rev (list_ascii_of_string p)) in
if forallb is_sep head_rev
then string_of_list_ascii (rev head_rev)
else string_of_list_ascii (rev (drop_while is_sep head_rev)).

Fixpoint take_while {A : Type} (p : A -> bool) (l : list A) : list A :=
match l with
| [] => []
| x :: l' => if p x then x :: take_while p l' else []
end.

(** [os.path.basename] of [posixpath], the tail of [posixpath.split]: what
  follows the last slash. *)
Definition basename (p : string) : string :=
string_of_list_ascii
  (rev (take_while (fun c => negb (is_sep c)) (rev (list_ascii_of_string p)))).

(** The truth value of a string: it is not empty. *)
Definition nonempty (s : string) : bool :=
match s with
| EmptyString => false
| String _ _ => true
end.

(** [os.makedirs(name)], which makes the missing parents first:
<<
    head, tail = path.split(name)
    if not tail:
        head, tail = path.split(head)
    if head and tail and not path.exists(head):
        makedirs(head)
    mkdir(name)
>>
  Each recursive call is on a shorter name, so the length of [name] is fuel
  enough.  (The library returns early when the last component is '.'; names
  are not resolved here and that case is left out.) *)
Fixpoint makedirs_from (fuel : nat) (name : string) (fs : FS) : FS :=
let head1 := dirname name in
let tail1 := basename name in
let head := if nonempty tail1 then head1 else dirname head1 in
let tail := if nonempty tail1 then tail1 else basename head1 in
if nonempty head && nonempty tail && negb (path_exists head fs)
then match fuel with
     | S fuel' => mkdir name (makedirs_from fuel' head fs)
     | O => mkdir name fs
     end
else mkdir name fs.

Definition makedirs (name : string) (fs : FS) : FS :=
makedirs_from (String.length name) name fs.

Definition TEMP_DIRPATH : string := "/tmp"%string.
Definition DATA_FILEPATH : string := "/tmp/data.dat"%string.
Definition PERF_FILEPATH : string := "/tmp/perf.csv"%string.
Definition OPERATIONS : list string := ["perf"; "fill"; "perf+fill"; "loop"]%string.
(** [list(logging._nameToLevel)]. *)
Definition LOG_LEVELS : list string :=
["CRITICAL"; "FATAL"; "ERROR"; "WARN"; "WARNING"; "INFO"; "DEBUG"; "NOTSET"]%string.
Definition LOG_LEVEL : string := "INFO"%string.

Definition str_in (s : string) (l : list string) : bool :=
existsb (String.eqb s) l.

Definition Qlt_bool (x y : Q) : bool := negb (Qle_bool y x).

Module Validation.

(** The loop [for filepath in [data_filepath, perf_filepath]]. *)
Fixpoint ensure_dirs (filepaths : list string) (fs : FS) : FS :=
  match filepaths with
  | [] => fs
  | filepath :: rest =>
      if negb (isdir (dirname filepath) fs)
      then ensure_dirs rest (makedirs (dirname filepath) fs)
      else ensure_dirs rest fs
  end.

Definition validate_kwargs
    (operation log_level : string) (fill size : Z) (duration : Q)
    (iterations : Z) (data_filepath perf_filepath : string) (fs : FS)
  : result unit * FS :=
  if negb (str_in operation OPERATIONS) then (Raise KeyError, fs)
  else if negb (str_in log_level LOG_LEVELS) then (Raise KeyError, fs)
  else if size <? 1 then (Raise ValueError, fs)
  else if negb (fill =? -1) && ((fill <? 0) && (255 <? fill))
       then (Raise ValueError, fs)
  else if Qlt_bool duration 0 then (Raise ValueError, fs)
  else if iterations <? 0 then (Raise ValueError, fs)
  else (Return tt, ensure_dirs [data_filepath; perf_filepath] fs).

End Validation.

(** * ContinuousWriter *)

(** The state threaded through the timed loop and the benchmark: the file
  system, the number of readings of [time.time()] taken so far and the
  number of draws of the random generator made so far. *)
Record World : Type := mkWorld {
fs : FS;
ticks : nat;
draws : nat
}.

Definition with_fs (f : FS -> FS) (w : World) : World :=
mkWorld (f (fs w)) (ticks w) (draws w).

Module ContinuousWriter.

Section WithClock.

(** [clock n] is the value of the [n]-th call of [time.time()]. *)
Variable clock : nat -> Q.

Definition time_time (w : World) : Q * World :=
  (clock (ticks w), mkWorld (fs w) (S (ticks w)) (draws w)).

(** The loop
    [while time.time() - start < duration or iteration < iterations]
    with its body; [None] when the fuel runs out before the loop exits. *)
Fixpoint write_loop (fuel : nat) (byte_array : bytearray) (data_filepath : string)
    (start duration : Q) (iterations iteration : Z) (w : World)
  : option (Z * World) :=
  match fuel with
  | O => None
  | S fuel' =>
      let (now, w1) := time_time w in
      if Qlt_bool (now - start) duration || (iteration <? iterations) then
        write_loop fuel' byte_array data_filepath start duration iterations
                   (iteration + 1)
                   (with_fs (file_append data_filepath byte_array) w1)
      else Some (iteration, w1)
  end.

(** The result triple: bytes written, elapsed seconds, iterations. *)
Definition write_result : Type := (Z * Q * Z)%type.

Definition write_byte_array_continuously (fuel : nat) (byte_array : bytearray)
    (data_filepath : string) (duration : Q) (iterations : Z) (w : World)
  : option (result write_result * World) :=
  match Validation.validate_kwargs "perf"%string LOG_LEVEL FILL SIZE duration iterations
                                   data_filepath PERF_FILEPATH (fs w) with
  | (Raise e, fs0) => Some (Raise e, mkWorld fs0 (ticks w) (draws w))
  | (Return _, fs0) =>
      let w0 := mkWorld (open_wb data_filepath fs0) (ticks w) (draws w) in
      match getsize data_filepath (fs w0) with
      | Raise e => Some (Raise e, w0)
      | Return original_size =>
          let w1 := with_fs (open_wb data_filepath) w0 in
          let (start, w2) := time_time w1 in
          match write_loop fuel byte_array data_filepath start duration
                           iterations 0 w2 with
          | None => None
          | Some (iteration, w3) =>
              let (end_, w4) := time_time w3 in
              match getsize data_filepath (fs w4) with
              | Raise e => Some (Raise e, w4)
              | Return size_now =>
                  let bytes_written := size_now - original_size in
                  let elapsed := (end_ - start)%Q in
                  if Qeq_bool elapsed 0 then Some (Raise ZeroDivisionError, w4)
                  else Some (Return (bytes_written, elapsed, iteration), w4)
              end
          end
      end
  end.

End WithClock.

End ContinuousWriter.

(** * ContiguousFiller *)

Module ContiguousFiller.

Inductive phase : Type := CoarseWrite | FineWrite.

(** What an observer of one fill operation sees, in order: the start of the
    monitor thread, every attempted write (with the free space of the drive
    at that moment and the bytes handed to [wb.write]) and [event.set()]. *)
Inductive event : Type :=
| ThreadStart
| WriteAttempt (ph : phase) (free_before : Z) (data : bytearray)
| EventSet.

(** What the environment does to one operation of the guarded block. *)
Inductive fault : Type := NoFault | Interrupt | IOError.

(** The drive under the data file: its file system, its free bytes, the
    number of operations performed so far and the observations so far. *)
Record Drive : Type := mkDrive {
  dfs : FS;
  free : Z;
  ops : nat;
  trace : list event
}.

Definition one_mb_bytes : Z := 1024 ^ 2.

(** [l[lo:hi]] for [0 <= lo]. *)
Definition slice (l : bytearray) (lo hi : Z) : bytearray :=
  firstn (Z.to_nat (hi - lo)) (skipn (Z.to_nat lo) l).

(** State and exceptions; [None] marks a loop that ran out of fuel, the
    drive is then the state reached so far. *)
Definition M (A : Type) : Type := Drive -> option (result A) * Drive.

Definition ret {A : Type} (a : A) : M A := fun d => (Some (Return a), d).

Definition bind {A B : Type} (m : M A) (k : A -> M B) : M B :=
  fun d =>
    match m d with
    | (Some (Return a), d1) => k a d1
    | (Some (Raise e), d1) => (Some (Raise e), d1)
    | (None, d1) => (None, d1)
    end.

Notation "x <- m ;; k" := (bind m (fun x => k))
  (at level 90, m at level 89, right associativity).
Notation "m ;;; k" := (bind m (fun _ => k))
  (at level 90, right associativity).

Definition emit (e : event) : M unit :=
  fun d => (Some (Return tt), mkDrive (dfs d) (free d) (ops d) (trace d ++ [e])).

Section WithFaults.

(** [faults n]: what happens to the [n]-th operation (open, probe, write,
    close) of this run: it proceeds, the user interrupts, or the operating
    system reports an error. *)
Variable faults : nat -> fault.

Definition attempt {A : Type} (k : M A) : M A :=
  fun d =>
    let d1 := mkDrive (dfs d) (free d) (S (ops d)) (trace d) in
    match faults (ops d) with
    | NoFault => k d1
    | Interrupt => (Some (Raise KeyboardInterrupt), d1)
    | IOError => (Some (Raise OSError), d1)
    end.

(** [psutil.disk_usage(drive).free]. *)
Definition disk_usage_free : M Z :=
  attempt (fun d => (Some (Return (free d)), d)).

(** [open(data_filepath, 'ab')] creates the file when it is missing. *)
Definition open_ab (path : string) : M unit :=
  attempt (fun d =>
    (Some (Return tt),
     mkDrive (file_append path [] (dfs d)) (free d) (ops d) (trace d))).

(** Leaving the [with] block. *)
Definition close : M unit := attempt (ret tt).

(** [wb.write(data)]: the bytes take their length from the free space; a
    write that does not fit fails with [OSError]. *)
Definition wb_write (ph : phase) (path : string) (data : bytearray) : M unit :=
  fun d =>
    (emit (WriteAttempt ph (free d) data) ;;;
     attempt (fun d1 =>
       let n := Z.of_nat (length data) in
       if n <=? free d1
       then (Some (Return tt),
             mkDrive (file_append path data (dfs d1)) (free d1 - n) (ops d1) (trace d1))
       else (Some (Raise OSError), d1))) d.

(** [while psutil.disk_usage(drive).free > byte_array_bytes: wb.write(byte_array)] *)
Fixpoint coarse_loop (fuel : nat) (byte_array : bytearray) (path : string) : M unit :=
  match fuel with
  | O => fun d => (None, d)
  | S fuel' =>
      free_now <- disk_usage_free ;;
      if free_now >? Z.of_nat (length byte_array) then
        wb_write CoarseWrite path byte_array ;;;
        coarse_loop fuel' byte_array path
      else ret tt
  end.

(** The body of [for i in range(byte_array_bytes // one_mb_bytes)], over the
    indices still to visit; the [else: break] leaves the loop. *)
Fixpoint fine_loop (byte_array : bytearray) (path : string) (indices : list nat)
  : M unit :=
  match indices with
  | [] => ret tt
  | i :: rest =>
      free_now <- disk_usage_free ;;
      if free_now >? one_mb_bytes then
        let one_mb_array :=
          slice byte_array (Z.of_nat i * one_mb_bytes)
                           ((Z.of_nat i + 1) * one_mb_bytes) in
        wb_write FineWrite path one_mb_array ;;;
        fine_loop byte_array path rest
      else ret tt
  end.

Definition fine_indices (byte_array : bytearray) : list nat :=
  seq 0 (range_len (Z.of_nat (length byte_array) / one_mb_bytes)).

(** The block under [try:]. *)
Definition try_block (fuel : nat) (byte_array : bytearray) (path : string) : M unit :=
  open_ab path ;;;
  coarse_loop fuel byte_array path ;;;
  close ;;;
  open_ab path ;;;
  fine_loop byte_array path (fine_indices byte_array) ;;;
  close.

(** [except KeyboardInterrupt] and [except OSError] only log. *)
Definition handled (e : exn) : bool :=
  match e with
  | KeyboardInterrupt | OSError => true
  | _ => false
  end.

Definition write_byte_array_contiguously (fuel : nat) (byte_array : bytearray)
    (data_filepath : string) : M unit :=
  fun d =>
    match Validation.validate_kwargs "perf"%string LOG_LEVEL FILL SIZE DURATION
            ITERATIONS data_filepath PERF_FILEPATH (dfs d) with
    | (Raise e, fs0) => (Some (Raise e), mkDrive fs0 (free d) (ops d) (trace d))
    | (Return _, fs0) =>
        let d0 := mkDrive fs0 (free d) (ops d) (trace d ++ [ThreadStart]) in
        match try_block fuel byte_array data_filepath d0 with
        | (None, d1) => (None, d1)
        | (Some r, d1) =>
            (* finally: event.set() *)
            let d2 := mkDrive (dfs d1) (free d1) (ops d1) (trace d1 ++ [EventSet]) in
            match r with
            | Raise e =>
                if handled e then (disk_usage_free ;;; ret tt) d2
                else (Some (Raise e), d2)
            | Return _ => (disk_usage_free ;;; ret tt) d2
            end
        end
    end.

End WithFaults.

End ContiguousFiller.

(** * ThroughputBenchmark *)

Module Benchmark.

(** One row of the performance table. *)
Record Row : Type := mkRow {
  kb : Z;
  mb : Q;
  rate : Q;
  elapsed : Q;
  iteration : Z
}.

(** The candidate sizes, built the way the program builds them. *)
Definition killobytes_list : list Z :=
  let l0 := [1; 4; 32; 128] in
  let l1 := l0 ++ map (fun ele => 1024 * ele) l0 in
  l1 ++ (map (fun ele => ele * 2) l1 ++ map (fun ele => ele * 3) l1).

(** [sorted(...)] on integers. *)
Definition sorted (l : list Z) : list Z := merge_sort Z.le l.

(** The running maximum and the rows collected so far. *)
Record Sweep : Type := mkSweep {
  sweetspot_bytearray : bytearray;
  sweetspot_killobytes : Z;
  sweetspot_rate : Q;
  rows : list Row
}.

Section WithEnvironment.

Variable clock : nat -> Q.
Variable rand : nat -> Byte.byte.
(** [pandas.DataFrame(rows).to_csv]: the serialisation of the table. *)
Variable to_csv : list Row -> bytearray.

(** The loop [for killobytes in sorted(killobytes_list)] over the candidates
    still to measure. *)
Fixpoint sweep (fuel : nat) (candidates : list Z) (data_filepath : string)
    (fill : Z) (acc : Sweep) (w : World) : option (result Sweep * World) :=
  match candidates with
  | [] => Some (Return acc, w)
  | killobytes :: rest =>
      let megabytes := (inject_Z killobytes / 1024)%Q in
      match BufferFactory.create_bytearray_killobytes rand killobytes fill (draws w) with
      | (Raise e, s') => Some (Raise e, mkWorld (fs w) (ticks w) s')
      | (Return byte_array, s') =>
          match ContinuousWriter.write_byte_array_continuously clock fuel byte_array
                  data_filepath DURATION ITERATIONS (mkWorld (fs w) (ticks w) s') with
          | None => None
          | Some (Raise e, w1) => Some (Raise e, w1)
          | Some (Return (bytes_written_bytes, elapsed, iteration), w1) =>
              let bytes_written_mb := (inject_Z bytes_written_bytes / inject_Z (1024 ^ 2))%Q in
              if Qeq_bool elapsed 0 then Some (Raise ZeroDivisionError, w1)
              else
                let rate := (bytes_written_mb / elapsed)%Q in
                let row := mkRow killobytes megabytes rate elapsed iteration in
                let acc' :=
                  if Qlt_bool (sweetspot_rate acc) rate
                  then mkSweep byte_array killobytes rate (rows acc ++ [row])
                  else mkSweep (sweetspot_bytearray acc) (sweetspot_killobytes acc)
                               (sweetspot_rate acc) (rows acc ++ [row]) in
                sweep fuel rest data_filepath fill acc' w1
          end
      end
  end.

Definition create_byte_array_high_throughput (fuel : nat)
    (data_filepath perf_filepath : string) (fill : Z) (w : World)
  : option (result bytearray * World) :=
  match Validation.validate_kwargs "perf"%string LOG_LEVEL fill SIZE DURATION
          ITERATIONS data_filepath perf_filepath (fs w) with
  | (Raise e, fs0) => Some (Raise e, mkWorld fs0 (ticks w) (draws w))
  | (Return _, fs0) =>
      match sweep fuel (sorted killobytes_list) data_filepath fill
                  (mkSweep [] 0 0%Q []) (mkWorld fs0 (ticks w) (draws w)) with
      | None => None
      | Some (Raise e, w1) => Some (Raise e, w1)
      | Some (Return acc, w1) =>
          (* df.to_csv(perf_filepath) *)
          Some (Return (sweetspot_bytearray acc),
                with_fs (fun fs1 =>
                  mkFS (dirs fs1) (<[ perf_filepath := to_csv (rows acc) ]> (files fs1))) w1)
      end
  end.

End WithEnvironment.

End Benchmark.

(** * UsageMonitor *)

Module UsageMonitor.

(** What the monitor thread does, in order: it asks [event.is_set()] and
    gets an answer, writes a log line with the percentage it read, or sleeps
    a hundredth of a second. *)
Inductive action : Type :=
| Asked (answer : bool)
| Log (percent : Q)
| Sleep.

(** The thread's own state: how many times it has asked [event.is_set()],
    how many times it has probed the drive, and what it has done so far. *)
Record Monitor : Type := mkMonitor {
  queries : nat;
  probes : nat;
  actions : list action
}.

Section WithEvent.

(** [is_set n]: the answer of the [n]-th call of [event.is_set()]. *)
Variable is_set : nat -> bool.
(** [usage n]: the [n]-th call of [psutil.disk_usage(drive)], its [percent]
    field or the error it raises. *)
Variable usage : nat -> result Q.

Definition event_is_set (m : Monitor) : bool * Monitor :=
  (is_set (queries m),
   mkMonitor (S (queries m)) (probes m) (actions m ++ [Asked (is_set (queries m))])).

Definition act (a : action) (m : Monitor) : Monitor :=
  mkMonitor (queries m) (probes m) (actions m ++ [a]).

(** [for _ in range(100): time.sleep(1 / 100); if event.is_set(): break],
    over the rounds still to run. *)
Fixpoint sleep_loop (rounds : nat) (m : Monitor) : Monitor :=
  match rounds with
  | O => m
  | S rounds' =>
      let (set, m1) := event_is_set (act Sleep m) in
      if set then m1 else sleep_loop rounds' m1
  end.

(** [while not event.is_set(): ...]; an error of the probe is not caught and
    ends the thread. *)
Fixpoint disk_usage_monitor (fuel : nat) (m : Monitor) : option (result unit * Monitor) :=
  match fuel with
  | O => None
  | S fuel' =>
      let (set, m1) := event_is_set m in
      if set then Some (Return tt, m1)
      else
        let m2 := mkMonitor (queries m1) (S (probes m1)) (actions m1) in
        match usage (probes m1) with
        | Raise e => Some (Raise e, m2)
        | Return percent =>
            disk_usage_monitor fuel' (sleep_loop 100 (act (Log percent) m2))
        end
  end.

End WithEvent.

End UsageMonitor.

(** * The command line *)

Module Main.

(** The four sub-commands with the options only they have. *)
Inductive command : Type :=
| Perf
| Fill (size : Z)
| PerfFill
| Loop (size : Z) (duration : Z) (iterations : Z).

(** The parsed arguments: [set_defaults(operation=...)], the options of the
    sub-command and the general ones. *)
Record Args : Type := mkArgs {
  cmd : command;
  data_filepath : string;
  perf_filepath : string;
  fill : Z;
  log_level : string
}.

Definition operation (c : command) : string :=
  match c with
  | Perf => "perf"
  | Fill _ => "fill"
  | PerfFill => "perf+fill"
  | Loop _ _ _ => "loop"
  end.

(** [vars(args)] passed as keywords: an option the sub-command does not have
    takes the default of [validate_kwargs]. *)
Definition size_of (c : command) : Z :=
  match c with
  | Fill size | Loop size _ _ => size
  | Perf | PerfFill => SIZE
  end.

Definition duration_of (c : command) : Q :=
  match c with
  | Loop _ duration _ => inject_Z duration
  | _ => DURATION
  end.

Definition iterations_of (c : command) : Z :=
  match c with
  | Loop _ _ iterations => iterations
  | _ => ITERATIONS
  end.

(** The machine the program runs on: the world of the timed loop and the
    drive of the filler share one file system. *)
Record Machine : Type := mkMachine {
  world : World;
  drive_free : Z;
  drive_ops : nat;
  drive_trace : list ContiguousFiller.event
}.

Definition drive_of (mc : Machine) : ContiguousFiller.Drive :=
  ContiguousFiller.mkDrive (fs (world mc)) (drive_free mc) (drive_ops mc)
                           (drive_trace mc).

Definition with_world (w : World) (mc : Machine) : Machine :=
  mkMachine w (drive_free mc) (drive_ops mc) (drive_trace mc).

Definition with_drive (d : ContiguousFiller.Drive) (mc : Machine) : Machine :=
  mkMachine (mkWorld (ContiguousFiller.dfs d) (ticks (world mc)) (draws (world mc)))
            (ContiguousFiller.free d) (ContiguousFiller.ops d)
            (ContiguousFiller.trace d).

Section WithEnvironment.

Variable clock : nat -> Q.
Variable rand : nat -> Byte.byte.
Variable to_csv : list Benchmark.Row -> bytearray.
Variable faults : nat -> ContiguousFiller.fault.

(** [write_byte_array_contiguously] on the machine. *)
Definition fill_drive (fuel : nat) (byte_array : bytearray) (path : string)
    (mc : Machine) : option (result unit * Machine) :=
  match ContiguousFiller.write_byte_array_contiguously faults fuel byte_array path
          (drive_of mc) with
  | (None, _) => None
  | (Some r, d) => Some (r, with_drive d mc)
  end.

(** [create_bytearray_killobytes(args.size, fill=args.fill)] on the machine. *)
Definition make_buffer (size fill : Z) (mc : Machine) : result bytearray * Machine :=
  let w := world mc in
  match BufferFactory.create_bytearray_killobytes rand size fill (draws w) with
  | (r, s') => (r, with_world (mkWorld (fs w) (ticks w) s') mc)
  end.

(** [main] from the validation of the parsed arguments on. *)
Definition main (fuel : nat) (args : Args) (mc : Machine)
  : option (result unit * Machine) :=
  let w := world mc in
  match Validation.validate_kwargs (operation (cmd args)) (log_level args)
          (fill args) (size_of (cmd args)) (duration_of (cmd args))
          (iterations_of (cmd args)) (data_filepath args) (perf_filepath args)
          (fs w) with
  | (Raise e, fs0) => Some (Raise e, with_world (mkWorld fs0 (ticks w) (draws w)) mc)
  | (Return _, fs0) =>
      let mc0 := with_world (mkWorld fs0 (ticks w) (draws w)) mc in
      match cmd args with
      | Perf =>
          match Benchmark.create_byte_array_high_throughput clock rand to_csv fuel
                  (data_filepath args) (perf_filepath args) (fill args) (world mc0) with
          | None => None
          | Some (Raise e, w1) => Some (Raise e, with_world w1 mc0)
          | Some (Return _, w1) => Some (Return tt, with_world w1 mc0)
          end
      | PerfFill =>
          match Benchmark.create_byte_array_high_throughput clock rand to_csv fuel
                  (data_filepath args) (perf_filepath args) (fill args) (world mc0) with
          | None => None
          | Some (Raise e, w1) => Some (Raise e, with_world w1 mc0)
          | Some (Return sweetspot_byte_array, w1) =>
              fill_drive fuel sweetspot_byte_array (data_filepath args)
                         (with_world w1 mc0)
          end
      | Fill size =>
          match make_buffer size (fill args) mc0 with
          | (Raise e, mc1) => Some (Raise e, mc1)
          | (Return byte_array, mc1) =>
              fill_drive fuel byte_array (data_filepath args) mc1
          end
      | Loop size duration iterations =>
          match make_buffer size (fill args) mc0 with
          | (Raise e, mc1) => Some (Raise e, mc1)
          | (Return byte_array, mc1) =>
              match ContinuousWriter.write_byte_array_continuously clock fuel
                      byte_array (data_filepath args) (inject_Z duration)
                      iterations (world mc1) with
              | None => None
              | Some (Raise e, w1) => Some (Raise e, with_world w1 mc1)
              | Some (Return _, w1) => Some (Return tt, with_world w1 mc1)
              end
          end
      end
  end.

End WithEnvironment.

End Main.

(** * Vocabulary of the statements *)

Module ValidationSpec.

(** [d] is [p] or one of its ancestors: taking [dirname] of [p] some number
    of times gives [d]. *)
Definition reaches (p d : string) : Prop :=
  exists n : nat, d = Nat.iter n dirname p.

(** [d] has its parent in [fs], where it has one: a name with a last
    component and a directory part. *)
Definition parent_present (d : string) (fs : FS) : Prop :=
  basename d <> EmptyString -> dirname d <> EmptyString ->
  path_exists (dirname d) fs = true.

End ValidationSpec.

Module ContinuousWriterSpec.
Import ContinuousWriter.

(** The file system after [k] more writes of [byte_array]. *)
Definition written (k : nat) (path : string) (byte_array : bytearray) (fs0 : FS) : FS :=
  Nat.iter k (file_append path byte_array) fs0.

(** The world in which the loop exits after [k] iterations: [k] writes and
    [k + 1] readings of the clock. *)
Definition after_loop (k : nat) (path : string) (byte_array : bytearray)
    (w : World) : World :=
  mkWorld (written k path byte_array (fs w)) (ticks w + k + 1) (draws w).

(** The world in which the loop starts: directories ensured, the file
    truncated twice, the start time read. *)
Definition loop_start (path : string) (w : World) : World :=
  mkWorld (open_wb path (open_wb path
             (Validation.ensure_dirs [path; PERF_FILEPATH] (fs w))))
          (S (ticks w)) (draws w).

(** The world after a run of [k] iterations. *)
Definition finished (k : nat) (path : string) (byte_array : bytearray)
    (w : World) : World :=
  mkWorld (written k path byte_array (fs (loop_start path w)))
          (ticks w + k + 3) (draws w).

(** What a run of [k] iterations hands back: the division by [elapsed]
    decides between the triple and [ZeroDivisionError]. *)
Definition run_outcome (clock : nat -> Q) (byte_array : bytearray) (w : World)
    (k : nat) : result write_result :=
  let elapsed := (clock (ticks w + k + 2)%nat - clock (ticks w))%Q in
  if Qeq_bool elapsed 0 then Raise ZeroDivisionError
  else Return (Z.of_nat k * Z.of_nat (length byte_array), elapsed, Z.of_nat k).

(** The readings of [time.time()] never decrease ... *)
Definition monotone (clock : nat -> Q) : Prop :=
  forall i j : nat, (i <= j)%nat -> (clock i <= clock j)%Q.

(** ... and pass every instant. *)
Definition unbounded (clock : nat -> Q) : Prop :=
  forall t : Q, exists n : nat, (t <= clock n)%Q.

(** A clock that advances by one second from one reading to the next. *)
Definition seconds_clock (n : nat) : Q := inject_Z (Z.of_nat n).

(** A clock that is set back: it reads 0, 1 and 5, and 1 from then on. *)
Definition set_back_clock (n : nat) : Q :=
  match n with
  | 0%nat => 0
  | 1%nat => 1
  | 2%nat => 5
  | _ => 1
  end.

End ContinuousWriterSpec.

Module ContiguousFillerSpec.
Import ContiguousFiller.

(** A coarse write hands over the whole buffer and was attempted with more
    free space than the buffer is long; a fine write hands over exactly
    1 MiB and was attempted with more than 1 MiB free. *)
Definition write_guarded (byte_array : bytearray) (e : event) : Prop :=
  match e with
  | WriteAttempt CoarseWrite free_before data =>
      data = byte_array /\ Z.of_nat (length byte_array) < free_before
  | WriteAttempt FineWrite free_before data =>
      Z.of_nat (length data) = one_mb_bytes /\ one_mb_bytes < free_before
  | ThreadStart | EventSet => True
  end.

Definition is_write (ph : phase) (e : event) : Prop :=
  exists free_before data, e = WriteAttempt ph free_before data.

(** The fine writes of a run that wrote the slices number [first],
    [first + 1], ... with the free space [frees] seen at each. *)
Fixpoint fine_events (byte_array : bytearray) (first : nat) (frees : list Z)
  : list event :=
  match frees with
  | [] => []
  | f :: frees' =>
      WriteAttempt FineWrite f
        (slice byte_array (Z.of_nat first * one_mb_bytes)
                          ((Z.of_nat first + 1) * one_mb_bytes))
      :: fine_events byte_array (S first) frees'
  end.

Definition no_faults : nat -> fault := fun _ => NoFault.

(** A computation is [sound] for [P] when it only adds events satisfying [P]
    to the trace and raises nothing but the exceptions the [try] statement
    handles; it is [total] when it needs no fuel. *)
Definition sound {A : Type} (P : event -> Prop) (m : M A) : Prop :=
  forall d : Drive,
    (exists evs, trace (snd (m d)) = trace d ++ evs /\ Forall P evs)
    /\ (forall e, fst (m d) = Some (Raise e) -> handled e = true).



(** What the call hands back once the guarded block is over: only the probe
    after the [finally] clause can still fail. *)
Definition final_outcome (f : fault) : result unit :=
  match f with
  | NoFault => Return tt
  | Interrupt => Raise KeyboardInterrupt
  | IOError => Raise OSError
  end.

End ContiguousFillerSpec.

Module BenchmarkSpec.

(** The fill values the program is meant to accept. *)
Definition valid_fill (fill : Z) : Prop := fill = -1 \/ 0 <= fill <= 255.

End BenchmarkSpec.

Module ContiguousFillerMoreSpec.
Import ContiguousFiller.

(** What the data file holds, a missing file counting as empty. *)
Definition data_content (path : string) (d : Drive) : list Z :=
  default [] (files (dfs d) !! path).

(** From [d] to [d'] the data file has only been appended to, every byte
    appended was taken from the free space, free space that was not
    negative has not become so, and no other file has changed. *)
Definition fills (path : string) (d d' : Drive) : Prop :=
  exists extra : list Z,
    data_content path d' = data_content path d ++ extra
    /\ free d' = free d - Z.of_nat (length extra)
    /\ (0 <= free d -> 0 <= free d')
    /\ (forall other, other <> path ->
          files (dfs d') !! other = files (dfs d) !! other).

Definition keeps {A : Type} (path : string) (m : M A) : Prop :=
  forall d : Drive, fills path d (snd (m d)).

End ContiguousFillerMoreSpec.

Module UsageMonitorSpec.
Import UsageMonitor.

(** Sleeps, each followed by a look at the event with the given answer. *)
Definition naps (answers : list bool) : list action :=
  concat (map (fun answer => [Sleep; Asked answer]) answers).

(** A round that was not cut short: the event is seen unset, the usage is
    logged, and a hundred naps follow that all see the event unset. *)
Definition full_round (percent : Q) : list action :=
  Asked false :: Log percent :: naps (repeat false 100).

(** A round cut short: after [j] naps that see the event unset, one more
    sees it set. *)
Definition cut_round (percent : Q) (j : nat) : list action :=
  Asked false :: Log percent :: naps (repeat false j ++ [true]).

(** An event that is never cleared: once set it stays set. *)
Definition settled (is_set : nat -> bool) : Prop :=
  forall i j : nat, (i <= j)%nat -> is_set i = true -> is_set j = true.

End UsageMonitorSpec.

Module BenchmarkMoreSpec.
Import Benchmark.

(** A row that records a full measurement: at least [ITERATIONS] iterations
    over at least [DURATION] seconds, the size in megabytes, and the rate
    computed from the bytes those iterations wrote. *)
Definition measured (r : Row) : Prop :=
  ITERATIONS <= iteration r
  /\ (DURATION <= elapsed r)%Q
  /\ mb r = (inject_Z (kb r) / 1024)%Q
  /\ rate r = (inject_Z (iteration r * (kb r * 1024)) / inject_Z (1024 ^ 2)
               / elapsed r)%Q.

(** [r] is the first row of [table] with the highest rate. *)
Definition first_best (table : list Row) (r : Row) : Prop :=
  exists before after : list Row,
    table = before ++ r :: after
    /\ Forall (fun b => (rate b < rate r)%Q) before
    /\ Forall (fun a => (rate a <= rate r)%Q) after.

(** The accumulator holds the first best row of the rows collected. *)
Definition winner (acc : Sweep) : Prop :=
  exists r : Row,
    first_best (rows acc) r
    /\ sweetspot_rate acc = rate r
    /\ sweetspot_killobytes acc = kb r
    /\ Z.of_nat (length (sweetspot_bytearray acc)) = kb r * 1024.

(** What the sweep keeps true of its accumulator: either nothing has been
    measured and the best rate so far is not positive, or the accumulator
    holds the first row of maximal rate. *)
Definition sweep_invariant (acc : Sweep) : Prop :=
  (rows acc = [] /\ (sweetspot_rate acc <= 0)%Q) \/ winner acc.

End BenchmarkMoreSpec.

(** * Properties of BufferFactory *)

Module BufferFactoryFacts.
Import BufferFactory.

Lemma extend_fold_length (killobyte : bytearray) (l : list nat) (acc : bytearray) :
  length (fold_left (fun a _ => a ++ killobyte) l acc)
  = (length acc + length l * length killobyte)%nat.
Proof.
  revert acc. induction l as [|i l IH]; intros acc; simpl.
  - lia.
  - rewrite IH, length_app. lia.
Qed.

Lemma extend_fold_Forall (P : Z -> Prop) (killobyte : bytearray) (l : list nat)
    (acc : bytearray) :
  Forall P killobyte -> Forall P acc ->
  Forall P (fold_left (fun a _ => a ++ killobyte) l acc).
Proof.
  intros Hk. revert acc. induction l as [|i l IH]; intros acc Hacc; simpl.
  - exact Hacc.
  - apply IH. apply Forall_app. split; assumption.
Qed.

Lemma extend_loop_length (killobyte : bytearray) (count : Z) :
  length (extend_loop killobyte count) = (range_len count * length killobyte)%nat.
Proof.
  unfold extend_loop. rewrite extend_fold_length, length_seq. simpl. lia.
Qed.

Lemma extend_loop_nonpos (killobyte : bytearray) (count : Z) :
  count <= 0 -> extend_loop killobyte count = [].
Proof.
  intros H. unfold extend_loop, range_len.
  replace (Z.to_nat count) with 0%nat by lia. reflexivity.
Qed.

Lemma randint_is_byte (rand : nat -> Byte.byte) (n : nat) :
  is_byte (randint_0_255 rand n) = true.
Proof.
  unfold is_byte, randint_0_255.
  pose proof (Byte.to_N_bounded (rand n)) as Hb.
  apply andb_true_iff. split; [apply Z.leb_le | apply Z.ltb_lt]; lia.
Qed.

Lemma forallb_map_const {A : Type} (p : Z -> bool) (x : Z) (l : list A) :
  l <> [] -> forallb p (map (fun _ => x) l) = p x.
Proof.
  induction l as [|a l IH]; intros Hne; [congruence|].
  simpl. destruct l as [|b l'].
  - simpl. apply andb_true_r.
  - rewrite IH by discriminate. apply andb_diag.
Qed.

(** A random block of any length is accepted by [bytearray]. *)
Lemma create_bytearray_random (rand : nat -> Byte.byte) (count : Z) (s : nat) :
  exists block,
    create_bytearray rand count (-1) s = (Return block, (s + range_len count)%nat)
    /\ length block = range_len count.
Proof.
  unfold create_bytearray, FILL. rewrite Z.eqb_refl.
  eexists. split.
  - unfold bytearray_of.
    replace (forallb is_byte _) with true; [reflexivity|].
    symmetry. apply forallb_forall. intros x Hx.
    apply in_map_iff in Hx as (i & <- & _). apply randint_is_byte.
  - rewrite length_map, length_seq. reflexivity.
Qed.

(** A constant block of a byte value is that value repeated. *)
Lemma create_bytearray_constant (rand : nat -> Byte.byte) (count fill : Z) (s : nat) :
  0 <= fill <= 255 ->
  create_bytearray rand count fill s
  = (Return (map (fun _ => fill) (seq 0 (range_len count))), s).
Proof.
  intros Hf. unfold create_bytearray, FILL.
  destruct (fill =? -1) eqn:E; [apply Z.eqb_eq in E; lia|].
  unfold bytearray_of.
  replace (forallb is_byte _) with true; [reflexivity|].
  symmetry. apply forallb_forall. intros x Hx.
  apply in_map_iff in Hx as (i & <- & _).
  unfold is_byte. apply andb_true_iff. split; [apply Z.leb_le | apply Z.ltb_lt]; lia.
Qed.

(** A fill value that is neither the sentinel nor a byte is refused as soon
    as one item is produced. *)
Lemma create_bytearray_invalid (rand : nat -> Byte.byte) (count fill : Z) (s : nat) :
  0 < count -> fill <> -1 -> fill < 0 \/ 255 < fill ->
  create_bytearray rand count fill s = (Raise ValueError, s).
Proof.
  intros Hc Hs Hf. unfold create_bytearray, FILL.
  destruct (fill =? -1) eqn:E; [apply Z.eqb_eq in E; lia|].
  unfold bytearray_of. rewrite forallb_map_const.
  - replace (is_byte fill) with false; [reflexivity|].
    symmetry. unfold is_byte. apply andb_false_iff.
    destruct Hf; [left; apply Z.leb_gt | right; apply Z.ltb_ge]; lia.
  - unfold range_len. destruct (Z.to_nat count) eqn:En; [lia|]. simpl. discriminate.
Qed.

(** C4 (as amended).  [create_bytearray_killobytes] raises [ValueError]
    whenever [fill] is outside {-1} ∪ [0,255], whatever [count] is; a
    negative [count] with an admissible [fill] is not refused: the result is
    the empty buffer. *)
Theorem create_bytearray_killobytes_invalid_argument
    (rand : nat -> Byte.byte) (count fill : Z) (s : nat) :
  (fill <> -1 /\ (fill < 0 \/ 255 < fill) ->
     fst (create_bytearray_killobytes rand count fill s) = Raise ValueError)
  /\ (fill = -1 \/ 0 <= fill <= 255 -> count < 0 ->
     fst (create_bytearray_killobytes rand count fill s) = Return []).
Proof.
  split.
  - intros [Hs Hf]. unfold create_bytearray_killobytes.
    rewrite create_bytearray_invalid by (lia || assumption). reflexivity.
  - intros Hf Hc. unfold create_bytearray_killobytes.
    destruct Hf as [-> | Hf].
    + destruct (create_bytearray_random rand 1024 s) as (block & -> & _).
      simpl. f_equal. apply extend_loop_nonpos. lia.
    + rewrite create_bytearray_constant by assumption.
      simpl. f_equal. apply extend_loop_nonpos. lia.
Qed.

Lemma create_bytearray_killobytes_invalid_argument_witness :
  fst (create_bytearray_killobytes (fun _ => x00%byte) 5 300 0) = Raise ValueError
  /\ fst (create_bytearray_killobytes (fun _ => x00%byte) (-2) 7 0) = Return [].
Proof.
  split.
  - apply (proj1 (create_bytearray_killobytes_invalid_argument
                    (fun _ => x00%byte) 5 300 0)). lia.
  - apply (proj2 (create_bytearray_killobytes_invalid_argument
                    (fun _ => x00%byte) (-2) 7 0)); lia.
Defined.

(** C4 as stated fails: a negative count with a constant fill returns a
    buffer instead of failing. *)
Lemma create_bytearray_killobytes_negative_count_accepted :
  ~ (forall count fill : Z,
       count < 0 \/ ~ (fill = -1 \/ 0 <= fill <= 255) ->
       exists e, fst (create_bytearray_killobytes (fun _ => x00%byte) count fill 0)
                 = Raise e).
Proof.
  intros H. destruct (H (-1) 0) as [e He]; [left; lia|].
  vm_compute in He. discriminate He.
Qed.

(** C5.  For [count >= 0] and an admissible [fill], the buffer has exactly
    [count * 1024] bytes, and with a constant [fill] in [0,255] every byte
    equals [fill]. *)
Theorem create_bytearray_killobytes_length_and_fill
    (rand : nat -> Byte.byte) (count fill : Z) (s : nat) :
  0 <= count -> fill = -1 \/ 0 <= fill <= 255 ->
  exists buffer,
    fst (create_bytearray_killobytes rand count fill s) = Return buffer
    /\ Z.of_nat (length buffer) = count * 1024
    /\ (0 <= fill <= 255 -> Forall (fun b => b = fill) buffer).
Proof.
  intros Hc Hf. unfold create_bytearray_killobytes.
  destruct Hf as [-> | Hf].
  - destruct (create_bytearray_random rand 1024 s) as (block & -> & Hlen).
    eexists. split; [reflexivity|]. split.
    + rewrite extend_loop_length, Hlen. unfold range_len. lia.
    + lia.
  - rewrite create_bytearray_constant by assumption.
    eexists. split; [reflexivity|]. split.
    + rewrite extend_loop_length, length_map, length_seq. unfold range_len. lia.
    + intros _. unfold extend_loop. apply extend_fold_Forall; [|constructor].
      apply List.Forall_forall. intros x Hx.
      apply in_map_iff in Hx as (i & <- & _). reflexivity.
Qed.

Lemma create_bytearray_killobytes_length_and_fill_witness :
  exists buffer,
    fst (create_bytearray_killobytes (fun _ => x2a%byte) 3 65 0) = Return buffer
    /\ Z.of_nat (length buffer) = 3 * 1024
    /\ (0 <= 65 <= 255 -> Forall (fun b => b = 65) buffer).
Proof.
  apply (create_bytearray_killobytes_length_and_fill (fun _ => x2a%byte) 3 65 0); lia.
Defined.

End BufferFactoryFacts.

(** * Properties of validation *)

Module ValidationFacts.
Import Validation.

Lemma Qlt_bool_iff (x y : Q) : Qlt_bool x y = true <-> (x < y)%Q.
Proof.
  unfold Qlt_bool. rewrite negb_true_iff. split.
  - intros H. apply Qnot_le_lt. intros Hle.
    apply Qle_bool_iff in Hle. congruence.
  - intros H. destruct (Qle_bool y x) eqn:E; [|reflexivity].
    apply Qle_bool_iff in E. exfalso. exact (Qlt_not_le _ _ H E).
Qed.

Lemma Qlt_bool_false_iff (x y : Q) : Qlt_bool x y = false <-> (y <= x)%Q.
Proof.
  unfold Qlt_bool. rewrite negb_false_iff. apply Qle_bool_iff.
Qed.

(** The guard on [fill] can never fire: no integer is below 0 and above 255. *)
Lemma fill_guard_dead (fill : Z) :
  negb (fill =? -1) && ((fill <? 0) && (255 <? fill)) = false.
Proof.
  destruct (fill <? 0) eqn:E1, (255 <? fill) eqn:E2;
    rewrite ?andb_false_r; try reflexivity.
  apply Z.ltb_lt in E1. apply Z.ltb_lt in E2. lia.
Qed.

(** The rejections the function does perform leave the file system as it
    was: they all happen before the directories are created. *)
Lemma validate_kwargs_rejects
    (operation log_level : string) (fill size : Z) (duration : Q)
    (iterations : Z) (data_filepath perf_filepath : string) (fs0 : FS) :
  str_in operation OPERATIONS = false \/ size < 1
    \/ (duration < 0)%Q \/ iterations < 0 ->
  exists e,
    validate_kwargs operation log_level fill size duration iterations
                    data_filepath perf_filepath fs0 = (Raise e, fs0).
Proof.
  intros H. unfold validate_kwargs.
  destruct (str_in operation OPERATIONS) eqn:Eop; cbn [negb]; [|eauto].
  destruct (str_in log_level LOG_LEVELS); cbn [negb]; [|eauto].
  destruct (size <? 1) eqn:Esz; [eauto|].
  rewrite fill_guard_dead.
  destruct (Qlt_bool duration 0) eqn:Ed; [eauto|].
  destruct (iterations <? 0) eqn:Ei; [eauto|].
  exfalso. apply Z.ltb_ge in Esz. apply Z.ltb_ge in Ei.
  apply Qlt_bool_false_iff in Ed.
  destruct H as [H | [H | [H | H]]]; try congruence; try lia.
  exact (Qlt_not_le _ _ H Ed).
Qed.

Lemma validate_kwargs_accepts
    (fill : Z) (duration : Q) (iterations : Z)
    (data_filepath perf_filepath : string) (fs0 : FS) :
  (0 <= duration)%Q -> 0 <= iterations ->
  validate_kwargs "perf"%string LOG_LEVEL fill SIZE duration iterations
                  data_filepath perf_filepath fs0
  = (Return tt, ensure_dirs [data_filepath; perf_filepath] fs0).
Proof.
  intros Hd Hi. unfold validate_kwargs.
  change (str_in "perf"%string OPERATIONS) with true.
  change (str_in LOG_LEVEL LOG_LEVELS) with true.
  change (SIZE <? 1) with false. cbn [negb].
  rewrite fill_guard_dead.
  apply Qlt_bool_false_iff in Hd. rewrite Hd.
  apply Z.ltb_ge in Hi. rewrite Hi. reflexivity.
Qed.

Lemma makedirs_from_files (fuel : nat) (name : string) (fs0 : FS) :
  files (makedirs_from fuel name fs0) = files fs0.
Proof.
  revert name. induction fuel as [|fuel IH]; intros name; cbn [makedirs_from];
    destruct (_ && _); cbn [mkdir files]; auto.
Qed.

Lemma ensure_dirs_files (filepaths : list string) (fs0 : FS) :
  files (ensure_dirs filepaths fs0) = files fs0.
Proof.
  revert fs0. induction filepaths as [|p l IH]; intros fs0; cbn [ensure_dirs];
    [reflexivity|].
  destruct (negb (isdir (dirname p) fs0)); rewrite IH; [|reflexivity].
  apply makedirs_from_files.
Qed.

(** C2, the failing case.  With every other argument admissible, a fill of
    300 (or any other integer) is not refused: [validate_kwargs] returns
    normally and goes on to create the missing directories. *)
Theorem validate_kwargs_accepts_fill_300 (fs0 : FS) :
  validate_kwargs "loop"%string LOG_LEVEL 300 SIZE DURATION ITERATIONS
                  DATA_FILEPATH PERF_FILEPATH fs0
  = (Return tt, ensure_dirs [DATA_FILEPATH; PERF_FILEPATH] fs0).
Proof.
  unfold validate_kwargs.
  change (str_in "loop"%string OPERATIONS) with true.
  change (str_in LOG_LEVEL LOG_LEVELS) with true.
  reflexivity.
Qed.

(** On a file system without [/tmp] the accepted call has already created
    the directory when it returns. *)
Example validate_kwargs_fill_300_creates_directory :
  isdir TEMP_DIRPATH
        (snd (validate_kwargs "loop"%string LOG_LEVEL 300 SIZE DURATION ITERATIONS
                              DATA_FILEPATH PERF_FILEPATH (mkFS ∅ ∅))) = true.
Proof. vm_compute. reflexivity. Qed.

End ValidationFacts.

(** * Properties of ContinuousWriter *)

Module ContinuousWriterFacts.
Import ContinuousWriter ContinuousWriterSpec ValidationFacts.

Lemma written_succ_r (k : nat) (path : string) (byte_array : bytearray) (fs0 : FS) :
  written (S k) path byte_array fs0
  = written k path byte_array (file_append path byte_array fs0).
Proof.
  unfold written. induction k as [|k IH]; [reflexivity|].
  change (Nat.iter (S (S k)) ?f ?x) with (f (Nat.iter (S k) f x)).
  rewrite IH. reflexivity.
Qed.

Lemma written_size (k : nat) (path : string) (byte_array content : bytearray)
    (fs0 : FS) :
  files fs0 !! path = Some content ->
  getsize path (written k path byte_array fs0)
  = Return (Z.of_nat (length content) + Z.of_nat k * Z.of_nat (length byte_array)).
Proof.
  revert content fs0. induction k as [|k IH]; intros content fs0 Hl.
  - unfold written, getsize. change (Nat.iter 0 _ fs0) with fs0.
    rewrite Hl. f_equal. lia.
  - rewrite written_succ_r.
    rewrite (IH (content ++ byte_array)).
    + f_equal. rewrite length_app. lia.
    + unfold file_append. cbn [files]. rewrite Hl. apply lookup_insert_eq.
Qed.

Lemma written_content (k : nat) (path : string) (byte_array content : list Z)
    (fs0 : FS) :
  files fs0 !! path = Some content ->
  files (written k path byte_array fs0) !! path
  = Some (content ++ concat (repeat byte_array k)).
Proof.
  revert content fs0. induction k as [|k IH]; intros content fs0 Hl.
  - unfold written. cbn [Nat.iter nat_rect repeat concat].
    rewrite app_nil_r. exact Hl.
  - rewrite written_succ_r. rewrite (IH (content ++ byte_array)).
    + cbn [repeat concat]. rewrite <- app_assoc. reflexivity.
    + unfold file_append. cbn [files]. rewrite Hl. apply lookup_insert_eq.
Qed.

(** What a finished loop has done: it ran [k] iterations, each begun after a
    check at which a bound was unmet, and left at a check at which both
    bounds were met. *)
Lemma write_loop_exit (clock : nat -> Q) (fuel : nat) (byte_array : bytearray)
    (path : string) (start duration : Q) (iterations iteration : Z)
    (w : World) (n : Z) (w' : World) :
  write_loop clock fuel byte_array path start duration iterations iteration w
    = Some (n, w') ->
  exists k : nat,
    n = iteration + Z.of_nat k
    /\ w' = after_loop k path byte_array w
    /\ (duration <= clock (ticks w + k)%nat - start)%Q
    /\ iterations <= n
    /\ (forall j : nat, (j < k)%nat ->
          (clock (ticks w + j)%nat - start < duration)%Q
          \/ iteration + Z.of_nat j < iterations).
Proof.
  revert iteration w. induction fuel as [|fuel IH]; intros iteration w H;
    [discriminate|].
  cbn [write_loop time_time] in H.
  destruct (Qlt_bool (clock (ticks w) - start) duration
            || (iteration <? iterations)) eqn:Econt.
  - apply IH in H as (k & Hn & Hw & Hexit & Hits & Hbefore).
    unfold with_fs in *. cbn [fs ticks draws] in *.
    exists (S k). repeat split.
    + lia.
    + rewrite Hw. unfold after_loop. cbn [fs ticks draws].
      rewrite written_succ_r. f_equal. lia.
    + replace (ticks w + S k)%nat with (S (ticks w) + k)%nat by lia. exact Hexit.
    + exact Hits.
    + intros [|j] Hj.
      * rewrite Nat.add_0_r, Z.add_0_r.
        apply orb_true_iff in Econt as [E | E].
        -- left. apply Qlt_bool_iff. exact E.
        -- right. apply Z.ltb_lt. exact E.
      * destruct (Hbefore j) as [Hb | Hb]; [lia | left | right; lia].
        replace (ticks w + S j)%nat with (S (ticks w) + j)%nat by lia. exact Hb.
  - injection H as <- <-.
    apply orb_false_iff in Econt as [E1 E2].
    exists 0%nat. repeat split.
    + lia.
    + unfold after_loop, written. destruct w as [fs0 t0 s0].
      cbn [fs ticks draws Nat.iter nat_rect]. f_equal. lia.
    + rewrite Nat.add_0_r. apply Qlt_bool_false_iff. exact E1.
    + apply Z.ltb_ge. exact E2.
    + intros j Hj. lia.
Qed.

Lemma write_loop_more_fuel (clock : nat -> Q) (fuel fuel' : nat)
    (byte_array : bytearray) (path : string) (start duration : Q)
    (iterations iteration : Z) (w : World) (r : Z * World) :
  (fuel <= fuel')%nat ->
  write_loop clock fuel byte_array path start duration iterations iteration w = Some r ->
  write_loop clock fuel' byte_array path start duration iterations iteration w = Some r.
Proof.
  revert fuel' iteration w. induction fuel as [|fuel IH];
    intros fuel' iteration w Hle H; [discriminate|].
  destruct fuel' as [|fuel']; [lia|].
  simpl in *.
  destruct (Qlt_bool (clock (ticks w) - start) duration
            || (iteration <? iterations)); [|exact H].
  apply IH; [lia | exact H].
Qed.

(** The loop exits as soon as the clock has passed the duration for good and
    the iteration bound is met: [bound] more checks suffice. *)
Lemma write_loop_terminates (clock : nat -> Q) (byte_array : bytearray)
    (path : string) (start duration : Q) (iterations : Z) (bound : nat) :
  forall (iteration : Z) (w : World),
    (forall j : nat, (ticks w + bound <= j)%nat ->
       (duration <= clock j - start)%Q) ->
    iterations <= iteration + Z.of_nat bound ->
    exists r,
      write_loop clock (S bound) byte_array path start duration iterations
                 iteration w = Some r.
Proof.
  induction bound as [|bound IH]; intros iteration w Hclock Hits.
  - simpl.
    replace (Qlt_bool (clock (ticks w) - start) duration) with false.
    + replace (iteration <? iterations) with false; [eauto|].
      symmetry. apply Z.ltb_ge. lia.
    + symmetry. apply Qlt_bool_false_iff. apply Hclock. lia.
  - cbn [write_loop time_time].
    destruct (Qlt_bool (clock (ticks w) - start) duration
              || (iteration <? iterations)); [|eauto].
    apply IH.
    + intros j Hj. apply Hclock. simpl in Hj. lia.
    + lia.
Qed.

Lemma write_byte_array_continuously_run (clock : nat -> Q) (fuel : nat)
    (byte_array : bytearray) (path : string) (duration : Q) (iterations : Z)
    (w : World) (k : nat) :
  (0 <= duration)%Q -> 0 <= iterations ->
  write_loop clock fuel byte_array path (clock (ticks w)) duration iterations 0
             (loop_start path w)
    = Some (Z.of_nat k, after_loop k path byte_array (loop_start path w)) ->
  write_byte_array_continuously clock fuel byte_array path duration iterations w
    = Some (run_outcome clock byte_array w k, finished k path byte_array w).
Proof.
  intros Hd Hi Hloop. unfold write_byte_array_continuously.
  rewrite validate_kwargs_accepts by assumption.
  cbn [fs ticks draws]. unfold getsize at 1. unfold open_wb at 1. cbn [files].
  rewrite lookup_insert_eq. unfold with_fs, time_time. cbn [fs ticks draws].
  unfold loop_start in Hloop. rewrite Hloop.
  unfold after_loop. cbn [fs ticks draws].
  rewrite (written_size k path byte_array []).
  - unfold run_outcome, finished, loop_start. cbn [fs ticks draws length].
    replace (S (ticks w) + k + 1)%nat with (ticks w + k + 2)%nat by lia.
    replace (S (ticks w + k + 2)) with (ticks w + k + 3)%nat by lia.
    replace (Z.of_nat 0 + Z.of_nat k * Z.of_nat (length byte_array) - Z.of_nat 0)
      with (Z.of_nat k * Z.of_nat (length byte_array)) by lia.
    destruct (Qeq_bool _ 0); reflexivity.
  - unfold open_wb. cbn [files]. apply lookup_insert_eq.
Qed.

(** Every run terminates under such a clock, and its loop has the shape
    described by [write_loop_exit]. *)
Lemma write_byte_array_continuously_terminates (clock : nat -> Q)
    (byte_array : bytearray) (path : string) (duration : Q) (iterations : Z)
    (w : World) :
  (0 <= duration)%Q -> 0 <= iterations -> monotone clock -> unbounded clock ->
  exists (fuel k : nat),
    (forall fuel', (fuel <= fuel')%nat ->
       write_byte_array_continuously clock fuel' byte_array path duration
                                     iterations w
       = Some (run_outcome clock byte_array w k, finished k path byte_array w))
    /\ iterations <= Z.of_nat k
    /\ (duration <= clock (ticks w + 1 + k)%nat - clock (ticks w))%Q
    /\ (forall j : nat, (j < k)%nat ->
          (clock (ticks w + 1 + j)%nat - clock (ticks w) < duration)%Q
          \/ Z.of_nat j < iterations).
Proof.
  intros Hd Hi Hmono Hunb.
  destruct (Hunb (clock (ticks w) + duration)%Q) as [m Hm].
  set (bound := (m + Z.to_nat iterations)%nat).
  destruct (write_loop_terminates clock byte_array path (clock (ticks w))
              duration iterations bound 0 (loop_start path w)) as [[n w3] Hrun].
  - intros j Hj. assert (Hmj : (clock m <= clock j)%Q) by (apply Hmono; lia).
    lra.
  - lia.
  - destruct (write_loop_exit _ _ _ _ _ _ _ _ _ _ _ Hrun)
      as (k & Hn & Hw & Hexit & Hits & Hbefore).
    subst n w3. rewrite Z.add_0_l in *.
    change (ticks (loop_start path w)) with (S (ticks w)) in *.
    replace (ticks w + 1)%nat with (S (ticks w)) by lia.
    exists (S bound), k. repeat split.
    + intros fuel' Hle. apply write_byte_array_continuously_run; try assumption.
      eapply write_loop_more_fuel; eassumption.
    + exact Hits.
    + exact Hexit.
    + intros j Hj. destruct (Hbefore j Hj) as [H | H]; [left; exact H | right; lia].
Qed.

(** [time.time()] read three times (or more) within one tick of the clock:
    with a zero duration the loop runs exactly [iterations] times and the
    throughput computation divides by an elapsed time of zero. *)
Lemma stalled_clock_divides_by_zero (t : Q) (byte_array : bytearray)
    (path : string) (iterations : Z) (w : World) (fuel : nat) :
  0 <= iterations -> (Z.to_nat iterations < fuel)%nat ->
  write_byte_array_continuously (fun _ => t) fuel byte_array path 0 iterations w
  = Some (Raise ZeroDivisionError,
          finished (Z.to_nat iterations) path byte_array w).
Proof.
  intros Hi Hfuel.
  destruct (write_loop_terminates (fun _ => t) byte_array path t 0 iterations
              (Z.to_nat iterations) 0 (loop_start path w)) as [[n w3] Hrun].
  - intros j _. lra.
  - lia.
  - destruct (write_loop_exit _ _ _ _ _ _ _ _ _ _ _ Hrun)
      as (k & Hn & Hw & _ & Hits & Hbefore).
    subst n w3. rewrite Z.add_0_l in *.
    assert (Hk : k = Z.to_nat iterations).
    { destruct (Nat.lt_ge_cases (Z.to_nat iterations) k) as [Hlt | Hge]; [|lia].
      destruct (Hbefore (Z.to_nat iterations) Hlt) as [H | H]; [lra | lia]. }
    subst k.
    rewrite (write_byte_array_continuously_run (fun _ => t) fuel byte_array
               path 0 iterations w (Z.to_nat iterations));
      [| lra | assumption
       | eapply write_loop_more_fuel; [|exact Hrun]; lia ].
    f_equal. f_equal. unfold run_outcome.
    replace (Qeq_bool (t - t) 0) with true; [reflexivity|].
    symmetry. apply Qeq_bool_iff. lra.
Qed.

(** C1 (as amended).  With non-negative bounds and a clock that never goes
    back and passes every instant, the run ends after some [k] iterations,
    and [k] is the number of times the loop body ran: the data file holds
    [k] copies of the buffer and the clock was read [k + 3] times.  The loop
    is left at a check where both bounds are met ([iterations <= k] and the
    elapsed time at that check is at least [duration]); every iteration
    [j < k] began after a check where a bound was still unmet.  The elapsed
    time of the run is at least [duration]; the run raises
    [ZeroDivisionError] exactly when that time is zero and otherwise returns
    the triple of [k * len(byte_array)] bytes, the elapsed time and [k]. *)
Theorem write_loop_continues_until_both_bounds_met (clock : nat -> Q)
    (byte_array : bytearray) (path : string) (duration : Q) (iterations : Z)
    (w : World) :
  (0 <= duration)%Q -> 0 <= iterations -> monotone clock -> unbounded clock ->
  exists (fuel k : nat) (out : result write_result) (w' : World),
    (forall fuel', (fuel <= fuel')%nat ->
       write_byte_array_continuously clock fuel' byte_array path duration
                                     iterations w = Some (out, w'))
    /\ files (fs w') !! path = Some (concat (repeat byte_array k))
    /\ ticks w' = (ticks w + k + 3)%nat
    /\ iterations <= Z.of_nat k
    /\ (duration <= clock (ticks w + 1 + k)%nat - clock (ticks w))%Q
    /\ (forall j : nat, (j < k)%nat ->
          (clock (ticks w + 1 + j)%nat - clock (ticks w) < duration)%Q
          \/ Z.of_nat j < iterations)
    /\ (duration <= clock (ticks w + k + 2)%nat - clock (ticks w))%Q
    /\ (((clock (ticks w + k + 2)%nat - clock (ticks w) == 0)%Q
         /\ out = Raise ZeroDivisionError)
        \/ (~ (clock (ticks w + k + 2)%nat - clock (ticks w) == 0)%Q
            /\ out = Return (Z.of_nat k * Z.of_nat (length byte_array),
                             (clock (ticks w + k + 2)%nat - clock (ticks w))%Q,
                             Z.of_nat k))).
Proof.
  intros Hd Hi Hmono Hunb.
  destruct (write_byte_array_continuously_terminates clock byte_array path
              duration iterations w Hd Hi Hmono Hunb)
    as (fuel & k & Hrun & Hits & Hexit & Hbefore).
  exists fuel, k, (run_outcome clock byte_array w k),
         (finished k path byte_array w).
  split; [exact Hrun|]. split; [|split; [reflexivity|]].
  { unfold finished. cbn [fs].
    rewrite (written_content _ path byte_array []); [reflexivity|].
    unfold loop_start, open_wb. cbn [fs files]. apply lookup_insert_eq. }
  split; [exact Hits|]. split; [exact Hexit|]. split; [exact Hbefore|].
  split.
  - assert (Hlast : (clock (ticks w + 1 + k)%nat <= clock (ticks w + k + 2)%nat)%Q)
      by (apply Hmono; lia).
    lra.
  - unfold run_outcome. destruct (Qeq_bool _ 0) eqn:E.
    + left. split; [apply Qeq_bool_iff; exact E | reflexivity].
    + right. split; [|reflexivity].
      intros Hz. apply Qeq_bool_iff in Hz. congruence.
Qed.

Lemma seconds_clock_monotone : monotone seconds_clock.
Proof.
  intros i j Hij. unfold seconds_clock. rewrite <- Zle_Qle. lia.
Qed.

Lemma seconds_clock_unbounded : unbounded seconds_clock.
Proof.
  intros t. exists (Z.to_nat (Qceiling t)). unfold seconds_clock.
  apply Qle_trans with (inject_Z (Qceiling t)); [apply Qle_ceiling|].
  rewrite <- Zle_Qle. lia.
Qed.

Lemma write_loop_continues_until_both_bounds_met_witness :
  exists (fuel k : nat) (out : result write_result) (w' : World),
    (forall fuel', (fuel <= fuel')%nat ->
       write_byte_array_continuously seconds_clock fuel' [1; 2] DATA_FILEPATH 2 3
                                     (mkWorld (mkFS ∅ ∅) 0 0) = Some (out, w'))
    /\ files (fs w') !! DATA_FILEPATH = Some (concat (repeat [1; 2] k))
    /\ ticks w' = (ticks (mkWorld (mkFS ∅ ∅) 0 0) + k + 3)%nat
    /\ 3 <= Z.of_nat k
    /\ (2 <= seconds_clock (ticks (mkWorld (mkFS ∅ ∅) 0 0) + 1 + k)%nat
             - seconds_clock (ticks (mkWorld (mkFS ∅ ∅) 0 0)))%Q
    /\ (forall j : nat, (j < k)%nat ->
          (seconds_clock (ticks (mkWorld (mkFS ∅ ∅) 0 0) + 1 + j)%nat
           - seconds_clock (ticks (mkWorld (mkFS ∅ ∅) 0 0)) < 2)%Q
          \/ Z.of_nat j < 3)
    /\ (2 <= seconds_clock (ticks (mkWorld (mkFS ∅ ∅) 0 0) + k + 2)%nat
             - seconds_clock (ticks (mkWorld (mkFS ∅ ∅) 0 0)))%Q
    /\ (((seconds_clock (ticks (mkWorld (mkFS ∅ ∅) 0 0) + k + 2)%nat
          - seconds_clock (ticks (mkWorld (mkFS ∅ ∅) 0 0)) == 0)%Q
         /\ out = Raise ZeroDivisionError)
        \/ (~ (seconds_clock (ticks (mkWorld (mkFS ∅ ∅) 0 0) + k + 2)%nat
               - seconds_clock (ticks (mkWorld (mkFS ∅ ∅) 0 0)) == 0)%Q
            /\ out = Return (Z.of_nat k * Z.of_nat (length [1; 2]),
                             (seconds_clock (ticks (mkWorld (mkFS ∅ ∅) 0 0) + k + 2)%nat
                              - seconds_clock (ticks (mkWorld (mkFS ∅ ∅) 0 0)))%Q,
                             Z.of_nat k))).
Proof.
  apply (write_loop_continues_until_both_bounds_met seconds_clock [1; 2]
           DATA_FILEPATH 2 3 (mkWorld (mkFS ∅ ∅) 0 0)).
  - lra.
  - lia.
  - exact seconds_clock_monotone.
  - exact seconds_clock_unbounded.
Defined.

(** C1 as stated fails: nothing keeps [time.time()] from going back.  With
    the readings 0, 1, 5 and then 1 (the clock is set back before the last
    reading), a duration of 2 and one iteration, the loop is left at the
    reading 5, with both bounds met, and the function returns an elapsed
    time of 1, below the duration. *)
Lemma clock_set_back_returns_elapsed_below_duration :
  exists w' : World,
    write_byte_array_continuously set_back_clock 3 [1; 2] DATA_FILEPATH 2 1
                                  (mkWorld (mkFS ∅ ∅) 0 0)
    = Some (Return (2, 1%Q, 1), w')
    /\ (1 < 2)%Q.
Proof.
  eexists. split; [vm_compute; reflexivity | reflexivity].
Qed.

(** Whatever the function returns has a non-zero elapsed time: a zero one
    never gets past the throughput computation. *)
Lemma returned_elapsed_nonzero (clock : nat -> Q) (fuel : nat)
    (byte_array : bytearray) (path : string) (duration : Q) (iterations : Z)
    (w w' : World) (bytes_written : Z) (elapsed : Q) (iteration : Z) :
  write_byte_array_continuously clock fuel byte_array path duration iterations w
    = Some (Return (bytes_written, elapsed, iteration), w') ->
  ~ (elapsed == 0)%Q.
Proof.
  unfold write_byte_array_continuously.
  destruct (Validation.validate_kwargs _ _ _ _ _ _ _ _ _) as [[[] | e] fs0];
    [|discriminate].
  destruct (getsize _ _); [|discriminate].
  cbn [time_time with_fs fs ticks draws].
  destruct (write_loop _ _ _ _ _ _ _ _ _) as [[n w3] |]; [|discriminate].
  destruct (getsize _ _); [|discriminate].
  destruct (Qeq_bool _ 0) eqn:E; [discriminate|].
  intros [= _ <- _ _] Hz. apply Qeq_bool_iff in Hz. congruence.
Qed.

(** C3, the failing case.  With both bounds zero and the three readings of
    the clock equal, no write happens and the function raises
    [ZeroDivisionError] instead of returning the triple. *)
Theorem zero_bounds_stalled_clock_raises (t : Q) (byte_array : bytearray)
    (path : string) (w : World) (fuel : nat) :
  write_byte_array_continuously (fun _ => t) (S fuel) byte_array path 0 0 w
  = Some (Raise ZeroDivisionError, finished 0 path byte_array w).
Proof.
  apply (stalled_clock_divides_by_zero t byte_array path 0 w (S fuel)).
  - lia.
  - simpl. lia.
Qed.

(** C7, the failing case.  One iteration requested, zero duration, the
    readings of the clock equal: the buffer is written once, the elapsed
    time is zero and the throughput computation raises
    [ZeroDivisionError]. *)
Theorem one_write_stalled_clock_divides_by_zero (t : Q) (byte_array : bytearray)
    (path : string) (w : World) (fuel : nat) :
  write_byte_array_continuously (fun _ => t) (S (S fuel)) byte_array path 0 1 w
  = Some (Raise ZeroDivisionError, finished 1 path byte_array w)
  /\ getsize path (fs (finished 1 path byte_array w))
     = Return (Z.of_nat (length byte_array)).
Proof.
  split.
  - apply (stalled_clock_divides_by_zero t byte_array path 1 w (S (S fuel))).
    + lia.
    + simpl. lia.
  - unfold finished. cbn [fs].
    rewrite (written_size 1 path byte_array []).
    + f_equal. simpl length. lia.
    + unfold loop_start, open_wb. cbn [fs files]. apply lookup_insert_eq.
Qed.

End ContinuousWriterFacts.

(** * Properties of ContiguousFiller *)

Module ContiguousFillerFacts.
Import ContiguousFiller ContiguousFillerSpec.

Ltac step_op :=
  unfold bind, disk_usage_free, open_ab, close, wb_write, emit, attempt, ret;
  cbn [dfs free ops trace fst snd].

Lemma coarse_loop_trace (faults : nat -> fault) (fuel : nat)
    (byte_array : bytearray) (path : string) :
  forall d : Drive,
  exists evs,
    trace (snd (coarse_loop faults fuel byte_array path d)) = trace d ++ evs
    /\ Forall (fun e => is_write CoarseWrite e /\ write_guarded byte_array e) evs
    /\ (fst (coarse_loop faults fuel byte_array path d) = Some (Return tt) ->
        free (snd (coarse_loop faults fuel byte_array path d))
        <= Z.of_nat (length byte_array)).
Proof.
  induction fuel as [|fuel IH]; intros d.
  - exists []. cbn. rewrite app_nil_r. repeat split; [constructor | discriminate].
  - cbn [coarse_loop]. step_op.
    destruct (faults (ops d));
      [| exists []; cbn; rewrite app_nil_r; repeat split; [constructor | discriminate] ..].
    destruct (free d >? Z.of_nat (length byte_array)) eqn:Efree.
    + step_op.
      destruct (faults (S (ops d))).
      * destruct (Z.of_nat (length byte_array) <=? free d) eqn:Efit.
        -- match goal with |- context [coarse_loop _ _ _ _ ?d2] =>
             destruct (IH d2) as (evs & Htr & Hall & Hdone) end.
           cbn [trace] in Htr.
           exists (WriteAttempt CoarseWrite (free d) byte_array :: evs).
           repeat split.
           ++ rewrite Htr, <- app_assoc. reflexivity.
           ++ constructor; [|exact Hall]. split.
              ** eexists _, _. reflexivity.
              ** cbn. split; [reflexivity | lia].
           ++ exact Hdone.
        -- exists [WriteAttempt CoarseWrite (free d) byte_array]. cbn.
           repeat split; [| discriminate].
           constructor; [|constructor]. split.
           ++ eexists _, _. reflexivity.
           ++ cbn. split; [reflexivity | lia].
      * exists [WriteAttempt CoarseWrite (free d) byte_array]. cbn.
        repeat split; [| discriminate].
        constructor; [|constructor]. split.
        -- eexists _, _. reflexivity.
        -- cbn. split; [reflexivity | lia].
      * exists [WriteAttempt CoarseWrite (free d) byte_array]. cbn.
        repeat split; [| discriminate].
        constructor; [|constructor]. split.
        -- eexists _, _. reflexivity.
        -- cbn. split; [reflexivity | lia].
    + exists []. cbn. rewrite app_nil_r. repeat split; [constructor | lia].
Qed.

Lemma sound_ret {A : Type} (P : event -> Prop) (a : A) : sound P (ret a).
Proof.
  intros d. split.
  - exists []. cbn. rewrite app_nil_r. split; [reflexivity | constructor].
  - cbn. discriminate.
Qed.

Lemma sound_emit (P : event -> Prop) (e : event) : P e -> sound P (emit e).
Proof.
  intros He d. split.
  - exists [e]. cbn. split; [reflexivity | repeat constructor; exact He].
  - cbn. discriminate.
Qed.

Lemma sound_bind {A B : Type} (P : event -> Prop) (m : M A) (k : A -> M B) :
  sound P m -> (forall a, sound P (k a)) -> sound P (bind m k).
Proof.
  intros Hm Hk d. unfold bind.
  destruct (Hm d) as [(evs & Htr & Hall) Hexn].
  destruct (m d) as [[[a | e] |] d1]; cbn [fst snd] in *.
  - destruct (Hk a d1) as [(evs' & Htr' & Hall') Hexn']. split.
    + exists (evs ++ evs'). rewrite Htr', Htr, app_assoc. split; [reflexivity|].
      apply Forall_app. split; assumption.
    + exact Hexn'.
  - split; [exists evs; split; assumption |].
    intros e' [= <-]. apply Hexn. reflexivity.
  - split; [exists evs; split; assumption | discriminate].
Qed.

Lemma sound_attempt {A : Type} (faults : nat -> fault) (P : event -> Prop)
    (k : M A) :
  sound P k -> sound P (attempt faults k).
Proof.
  intros Hk d. unfold attempt.
  destruct (faults (ops d)).
  - destruct (Hk (mkDrive (dfs d) (free d) (S (ops d)) (trace d))) as [Htr Hexn].
    split; assumption.
  - split; [exists []; cbn; rewrite app_nil_r; split; [reflexivity | constructor]|].
    cbn. intros e [= <-]. reflexivity.
  - split; [exists []; cbn; rewrite app_nil_r; split; [reflexivity | constructor]|].
    cbn. intros e [= <-]. reflexivity.
Qed.

Lemma sound_probe (faults : nat -> fault) (P : event -> Prop) :
  sound P (disk_usage_free faults).
Proof.
  apply sound_attempt. intros d. split.
  - exists []. cbn. rewrite app_nil_r. split; [reflexivity | constructor].
  - cbn. discriminate.
Qed.

Lemma sound_open_ab (faults : nat -> fault) (P : event -> Prop) (path : string) :
  sound P (open_ab faults path).
Proof.
  apply sound_attempt. intros d. split.
  - exists []. cbn. rewrite app_nil_r. split; [reflexivity | constructor].
  - cbn. discriminate.
Qed.

Lemma sound_close (faults : nat -> fault) (P : event -> Prop) :
  sound P (close faults).
Proof. apply sound_attempt, sound_ret. Qed.

Lemma sound_wb_write (faults : nat -> fault) (P : event -> Prop) (ph : phase)
    (path : string) (data : bytearray) :
  (forall f, P (WriteAttempt ph f data)) ->
  sound P (wb_write faults ph path data).
Proof.
  intros HP d. unfold wb_write.
  apply (sound_bind P (emit (WriteAttempt ph (free d) data))).
  - apply sound_emit, HP.
  - intros _. apply sound_attempt. intros d1. split.
    + exists []. destruct (Z.of_nat (length data) <=? free d1);
        cbn; rewrite app_nil_r; split; reflexivity || constructor.
    + destruct (Z.of_nat (length data) <=? free d1); cbn.
      * discriminate.
      * intros e [= <-]. reflexivity.
Qed.

Lemma slice_length (byte_array : bytearray) (i : nat) :
  (Z.of_nat i + 1) * one_mb_bytes <= Z.of_nat (length byte_array) ->
  Z.of_nat (length (slice byte_array (Z.of_nat i * one_mb_bytes)
                                     ((Z.of_nat i + 1) * one_mb_bytes)))
  = one_mb_bytes.
Proof.
  intros H. unfold slice. rewrite length_firstn, length_skipn.
  assert (0 < one_mb_bytes) by (unfold one_mb_bytes; lia).
  lia.
Qed.

Lemma fine_events_guarded (byte_array : bytearray) (frees : list Z) :
  forall first : nat,
    Z.of_nat (first + length frees) * one_mb_bytes <= Z.of_nat (length byte_array) ->
    Forall (fun f => one_mb_bytes < f) frees ->
    Forall (fun e => is_write FineWrite e /\ write_guarded byte_array e)
           (fine_events byte_array first frees).
Proof.
  induction frees as [|f frees IH]; intros first Hlen Hall; cbn [fine_events].
  - constructor.
  - inversion Hall as [|? ? Hf Hall']; subst. cbn [length] in Hlen.
    constructor.
    + split; [eexists _, _; reflexivity|]. cbn [write_guarded]. split.
      * apply slice_length. nia.
      * exact Hf.
    + apply IH; [|exact Hall'].
      replace (S first + length frees)%nat with (first + S (length frees))%nat by lia.
      exact Hlen.
Qed.

(** The fine loop over the indices [first, first + 1, ...]: it writes the
    slices of a prefix of them, in order, each with more than 1 MiB free. *)
Lemma fine_loop_trace (faults : nat -> fault) (byte_array : bytearray)
    (path : string) (n : nat) :
  forall (first : nat) (d : Drive),
  exists frees : list Z,
    trace (snd (fine_loop faults byte_array path (seq first n) d))
      = trace d ++ fine_events byte_array first frees
    /\ (length frees <= n)%nat
    /\ Forall (fun f => one_mb_bytes < f) frees.
Proof.
  induction n as [|n IH]; intros first d.
  - exists []. cbn. rewrite app_nil_r. repeat split; [lia | constructor].
  - cbn [seq fine_loop]. step_op.
    destruct (faults (ops d));
      [| exists []; cbn; rewrite app_nil_r; repeat split; [lia | constructor] ..].
    destruct (free d >? one_mb_bytes) eqn:Efree;
      [| exists []; cbn; rewrite app_nil_r; repeat split; [lia | constructor] ].
    step_op.
    destruct (faults (S (ops d)));
      [| exists [free d]; cbn; repeat split;
         [lia | repeat constructor; lia] ..].
    match goal with |- context [if ?c then _ else _] => destruct c end.
    + match goal with |- context [fine_loop _ _ _ _ ?d2] =>
        destruct (IH (S first) d2) as (frees & Htr & Hlen & Hall) end.
      cbn [trace] in Htr.
      exists (free d :: frees). repeat split.
      * rewrite Htr, <- app_assoc. reflexivity.
      * cbn. lia.
      * constructor; [lia | exact Hall].
    + exists [free d]. cbn. repeat split; [lia | repeat constructor; lia].
Qed.

Lemma fine_indices_bound (byte_array : bytearray) :
  Z.of_nat (range_len (Z.of_nat (length byte_array) / one_mb_bytes)) * one_mb_bytes
  <= Z.of_nat (length byte_array).
Proof.
  unfold range_len.
  assert (H1 : 0 < one_mb_bytes) by (unfold one_mb_bytes; lia).
  assert (H2 : 0 <= Z.of_nat (length byte_array) / one_mb_bytes)
    by (apply Z.div_pos; lia).
  rewrite Z2Nat.id by exact H2.
  rewrite Z.mul_comm. apply Z.mul_div_le. exact H1.
Qed.

Lemma open_ab_state (faults : nat -> fault) (path : string) (d : Drive) :
  trace (snd (open_ab faults path d)) = trace d
  /\ free (snd (open_ab faults path d)) = free d.
Proof. step_op. destruct (faults (ops d)); split; reflexivity. Qed.

Lemma close_state (faults : nat -> fault) (d : Drive) :
  trace (snd (close faults d)) = trace d
  /\ free (snd (close faults d)) = free d.
Proof. step_op. destruct (faults (ops d)); split; reflexivity. Qed.

Ltac side :=
  first [ assumption | cbn [length]; lia | constructor ].

Ltac chain_traces :=
  cbn [fine_events fst snd] in *; rewrite ?app_nil_r in *;
  repeat match goal with
         | H : trace ?x = _ |- context [trace ?x] => rewrite H; clear H
         end;
  rewrite <- ?app_assoc; try reflexivity.

(** The guarded block adds guarded coarse writes and then fine writes of
    consecutive slices, nothing else. *)
Lemma try_block_trace (faults : nat -> fault) (fuel : nat)
    (byte_array : bytearray) (path : string) (d : Drive) :
  exists (coarse : list event) (frees : list Z),
    trace (snd (try_block faults fuel byte_array path d))
      = trace d ++ coarse ++ fine_events byte_array 0 frees
    /\ Forall (fun e => is_write CoarseWrite e /\ write_guarded byte_array e) coarse
    /\ (length frees
        <= range_len (Z.of_nat (length byte_array) / one_mb_bytes))%nat
    /\ Forall (fun f => one_mb_bytes < f) frees.
Proof.
  unfold try_block.
  unfold bind at 1. destruct (open_ab_state faults path d) as [T1 _].
  destruct (open_ab faults path d) as [[[[] | e] |] d1];
    [| exists [], []; chain_traces; repeat split; side ..].
  unfold bind at 1.
  destruct (coarse_loop_trace faults fuel byte_array path d1)
    as (coarse & T2 & Hcoarse & _).
  destruct (coarse_loop faults fuel byte_array path d1) as [[[[] | e] |] d2];
    [| exists coarse, []; chain_traces; repeat split; side ..].
  unfold bind at 1. destruct (close_state faults d2) as [T3 _].
  destruct (close faults d2) as [[[[] | e] |] d3];
    [| exists coarse, []; chain_traces; repeat split; side ..].
  unfold bind at 1. destruct (open_ab_state faults path d3) as [T4 _].
  destruct (open_ab faults path d3) as [[[[] | e] |] d4];
    [| exists coarse, []; chain_traces; repeat split; side ..].
  unfold bind at 1.
  destruct (fine_loop_trace faults byte_array path
              (range_len (Z.of_nat (length byte_array) / one_mb_bytes)) 0 d4)
    as (frees & T5 & Hlen & Hfrees).
  fold (fine_indices byte_array) in T5.
  destruct (fine_loop faults byte_array path (fine_indices byte_array) d4)
    as [[[[] | e] |] d5];
    [| exists coarse, frees; chain_traces; repeat split; assumption ..].
  destruct (close_state faults d5) as [T6 _].
  exists coarse, frees. chain_traces. repeat split; assumption.
Qed.

Lemma sound_coarse_loop (faults : nat -> fault) (P : event -> Prop) (fuel : nat)
    (byte_array : bytearray) (path : string) :
  (forall f data, P (WriteAttempt CoarseWrite f data)) ->
  sound P (coarse_loop faults fuel byte_array path).
Proof.
  intros HP. induction fuel as [|fuel IH]; cbn [coarse_loop].
  - intros d. split; [|cbn; discriminate].
    exists []. cbn. rewrite app_nil_r. split; [reflexivity | constructor].
  - apply sound_bind; [apply sound_probe|]. intros free_now.
    destruct (free_now >? Z.of_nat (length byte_array)); [|apply sound_ret].
    apply sound_bind; [apply sound_wb_write; intros f; apply HP|].
    intros _. exact IH.
Qed.

Lemma sound_fine_loop (faults : nat -> fault) (P : event -> Prop)
    (byte_array : bytearray) (path : string) (indices : list nat) :
  (forall f data, P (WriteAttempt FineWrite f data)) ->
  sound P (fine_loop faults byte_array path indices).
Proof.
  intros HP. induction indices as [|i rest IH]; cbn [fine_loop].
  - apply sound_ret.
  - apply sound_bind; [apply sound_probe|]. intros free_now.
    destruct (free_now >? one_mb_bytes); [|apply sound_ret].
    apply sound_bind; [apply sound_wb_write; intros f; apply HP|].
    intros _. exact IH.
Qed.

(** Whatever the guarded block raises is handled by the [try] statement. *)
Lemma try_block_handled (faults : nat -> fault) (fuel : nat)
    (byte_array : bytearray) (path : string) (d : Drive) (e : exn) :
  fst (try_block faults fuel byte_array path d) = Some (Raise e) ->
  handled e = true.
Proof.
  assert (Hs : sound (fun _ => True) (try_block faults fuel byte_array path)).
  { unfold try_block.
    repeat (apply sound_bind; [|intros _]);
      first [ apply sound_open_ab | apply sound_close
            | apply sound_coarse_loop; intros; exact I
            | apply sound_fine_loop; intros; exact I ]. }
  apply (Hs d).
Qed.












Lemma final_probe_run (faults : nat -> fault) (d : Drive) :
  exists d', (disk_usage_free faults ;;; ret tt) d
             = (Some (final_outcome (faults (ops d))), d')
             /\ trace d' = trace d /\ ops d' = S (ops d).
Proof.
  step_op. destruct (faults (ops d)); eexists; repeat split.
Qed.

Lemma contiguous_run (faults : nat -> fault) (fuel : nat)
    (byte_array : bytearray) (path : string) (d : Drive) :
  exists (coarse : list event) (frees : list Z),
    Forall (fun e => is_write CoarseWrite e /\ write_guarded byte_array e) coarse
    /\ (length frees
        <= range_len (Z.of_nat (length byte_array) / one_mb_bytes))%nat
    /\ Forall (fun f => one_mb_bytes < f) frees
    /\ match fst (write_byte_array_contiguously faults fuel byte_array path d) with
       | None =>
           trace (snd (write_byte_array_contiguously faults fuel byte_array path d))
           = trace d ++ ThreadStart :: coarse ++ fine_events byte_array 0 frees
       | Some r =>
           trace (snd (write_byte_array_contiguously faults fuel byte_array path d))
           = trace d ++ ThreadStart :: coarse ++ fine_events byte_array 0 frees
                     ++ [EventSet]
           /\ r = final_outcome
                    (faults (pred (ops (snd (write_byte_array_contiguously
                                               faults fuel byte_array path d)))))
       end.
Proof.
  unfold write_byte_array_contiguously.
  rewrite ValidationFacts.validate_kwargs_accepts
    by (unfold DURATION, ITERATIONS; (lra || lia)).
  match goal with |- context [try_block _ _ _ _ ?d0] =>
    destruct (try_block_trace faults fuel byte_array path d0)
      as (coarse & frees & T & Hc & Hl & Hf);
    pose proof (try_block_handled faults fuel byte_array path d0) as Hh;
    destruct (try_block faults fuel byte_array path d0) as [[r |] d1]
  end; cbn [fst snd trace] in *; exists coarse, frees; repeat split; try assumption.
  - destruct r as [[] | e]; [| rewrite (Hh e eq_refl)];
      match goal with |- context [(disk_usage_free faults ;;; ret tt) ?d2] =>
        destruct (final_probe_run faults d2) as (d3 & -> & Htr & Hops) end;
      cbn [fst snd trace ops] in *; rewrite Htr, Hops, T; cbn [pred];
      (split; [rewrite <- !app_assoc; reflexivity | reflexivity]).
  - rewrite T, <- !app_assoc. reflexivity.
Qed.

Lemma fine_indices_short (byte_array : bytearray) :
  Z.of_nat (length byte_array) < one_mb_bytes -> fine_indices byte_array = [].
Proof.
  intros H. unfold fine_indices. rewrite Z.div_small by lia. reflexivity.
Qed.

(** Without faults, free space that is a positive multiple of the buffer
    length is consumed down to exactly one buffer length. *)
Lemma coarse_loop_multiple (byte_array : bytearray) (path : string) :
  (0 < length byte_array)%nat ->
  forall (m : nat) (d : Drive),
    free d = Z.of_nat (S m) * Z.of_nat (length byte_array) ->
    exists d',
      coarse_loop no_faults (S m) byte_array path d = (Some (Return tt), d')
      /\ free d' = Z.of_nat (length byte_array).
Proof.
  intros Hlen. induction m as [|m IH]; intros d Hfree.
  - cbn [coarse_loop]. step_op. unfold no_faults.
    replace (free d >? Z.of_nat (length byte_array)) with false
      by (symmetry; rewrite Z.gtb_ltb; apply Z.ltb_ge; lia).
    eexists. split; [reflexivity|]. cbn. lia.
  - cbn [coarse_loop]. step_op. unfold no_faults at 1.
    replace (free d >? Z.of_nat (length byte_array)) with true
      by (symmetry; rewrite Z.gtb_ltb; apply Z.ltb_lt; nia).
    step_op. unfold no_faults at 1.
    replace (Z.of_nat (length byte_array) <=? free d) with true
      by (symmetry; apply Z.leb_le; nia).
    apply IH. cbn [free]. lia.
Qed.

Lemma short_buffer_run (byte_array : bytearray) (path : string) (m : nat)
    (d : Drive) :
  (0 < length byte_array)%nat ->
  Z.of_nat (length byte_array) < one_mb_bytes ->
  free d = Z.of_nat (S m) * Z.of_nat (length byte_array) ->
  exists d',
    write_byte_array_contiguously no_faults (S m) byte_array path d
      = (Some (Return tt), d')
    /\ free d' = Z.of_nat (length byte_array).
Proof.
  intros Hpos Hshort Hfree. unfold write_byte_array_contiguously.
  rewrite ValidationFacts.validate_kwargs_accepts
    by (unfold DURATION, ITERATIONS; (lra || lia)).
  unfold try_block. rewrite (fine_indices_short byte_array Hshort).
  cbn [fine_loop].
  unfold bind at 1. unfold open_ab at 1, attempt at 1, no_faults at 1.
  cbn [dfs free ops trace].
  unfold bind at 1.
  match goal with |- context [coarse_loop _ _ _ _ ?d1] =>
    destruct (coarse_loop_multiple byte_array path Hpos m d1 Hfree)
      as (d2 & -> & Hd2) end.
  step_op. unfold no_faults. eexists. split; [reflexivity|]. exact Hd2.
Qed.

(** C6 (as amended).  Every write attempted in a run, finished or not, is
    guarded: a coarse write hands over the whole buffer with more free
    bytes than its length, a fine write hands over 1 MiB with more than
    1 MiB free; and a coarse loop that completes normally leaves at most
    [len(byte_array)] bytes free. *)
Theorem fill_writes_guarded_coarse_exhausted (faults : nat -> fault)
    (fuel : nat) (byte_array : bytearray) (path : string) (d : Drive) :
  (exists evs,
     trace (snd (write_byte_array_contiguously faults fuel byte_array path d))
       = trace d ++ evs
     /\ Forall (write_guarded byte_array) evs)
  /\ (fst (coarse_loop faults fuel byte_array path d) = Some (Return tt) ->
      free (snd (coarse_loop faults fuel byte_array path d))
      <= Z.of_nat (length byte_array)).
Proof.
  split.
  - destruct (contiguous_run faults fuel byte_array path d)
      as (coarse & frees & Hc & Hl & Hf & Hrun).
    assert (Hfine : Forall (write_guarded byte_array)
                           (fine_events byte_array 0 frees)).
    { eapply Forall_impl;
        [apply fine_events_guarded; [|exact Hf] | intros e [_ H]; exact H].
      pose proof (fine_indices_bound byte_array) as Hb.
      assert (0 < one_mb_bytes) by (unfold one_mb_bytes; lia). nia. }
    assert (Hcoarse : Forall (write_guarded byte_array) coarse)
      by (eapply Forall_impl; [exact Hc | intros e [_ H]; exact H]).
    destruct (fst (write_byte_array_contiguously faults fuel byte_array path d)).
    + destruct Hrun as [-> _]. eexists. split; [reflexivity|].
      constructor; [exact I|]. repeat (apply Forall_app; split); try assumption.
      repeat constructor.
    + rewrite Hrun. eexists. split; [reflexivity|].
      constructor; [exact I|]. apply Forall_app. split; assumption.
  - destruct (coarse_loop_trace faults fuel byte_array path d)
      as (evs & _ & _ & H). exact H.
Qed.

Lemma fill_writes_guarded_coarse_exhausted_witness :
  free (snd (coarse_loop no_faults 3 [1; 2; 3] DATA_FILEPATH
               (mkDrive (mkFS ∅ ∅) 7 0 [])))
  <= Z.of_nat (length [1; 2; 3]).
Proof.
  apply (proj2 (fill_writes_guarded_coarse_exhausted no_faults 3 [1; 2; 3]
                  DATA_FILEPATH (mkDrive (mkFS ∅ ∅) 7 0 []))).
  vm_compute. reflexivity.
Defined.

(** C6 as stated fails: with 2048 bytes free and a 1 KiB buffer the coarse
    loop writes once and completes normally with exactly 1024 bytes free,
    which is not less than the length of the buffer. *)
Lemma coarse_phase_ends_with_free_equal_to_buffer :
  fst (coarse_loop no_faults 2 (repeat 0 1024) DATA_FILEPATH
         (mkDrive (mkFS ∅ ∅) 2048 0 [])) = Some (Return tt)
  /\ ~ (free (snd (coarse_loop no_faults 2 (repeat 0 1024) DATA_FILEPATH
                     (mkDrive (mkFS ∅ ∅) 2048 0 [])))
        < Z.of_nat (length (repeat 0 1024))).
Proof.
  split.
  - vm_compute. reflexivity.
  - vm_compute. discriminate.
Qed.



(** A write that fails with [OSError] ends the run normally: the monitor was
    started first, the signal is set last, the call returns. *)
Example oserror_during_write_returns_normally :
  let run := write_byte_array_contiguously
               (fun n => if (n =? 4)%nat then IOError else NoFault) 5 [1; 2; 3]
               DATA_FILEPATH (mkDrive (mkFS ∅ ∅) 10 0 []) in
  fst run = Some (Return tt)
  /\ trace (snd run)
     = [ThreadStart; WriteAttempt CoarseWrite 10 [1; 2; 3];
        WriteAttempt CoarseWrite 7 [1; 2; 3]; EventSet].
Proof. vm_compute. split; reflexivity. Qed.

(** C10.  The fine loop writes the slices number 0, 1, 2, ... of the
    buffer, [byte_array[i * 1MiB : (i + 1) * 1MiB]] at step [i], and at most
    [len(byte_array) // 1MiB] of them; a buffer shorter than 1 MiB gets no
    fine write at all, so that a fault-free run on free space that is a
    positive multiple of the buffer length ends with [len(byte_array)]
    bytes still free. *)
Theorem fine_phase_writes_leading_slices (faults : nat -> fault)
    (byte_array : bytearray) (path : string) (d : Drive) :
  (exists frees : list Z,
     trace (snd (fine_loop faults byte_array path (fine_indices byte_array) d))
       = trace d ++ fine_events byte_array 0 frees
     /\ Z.of_nat (length frees) <= Z.of_nat (length byte_array) / one_mb_bytes)
  /\ (Z.of_nat (length byte_array) < one_mb_bytes ->
      fine_loop faults byte_array path (fine_indices byte_array) d
      = (Some (Return tt), d))
  /\ (forall m : nat,
        (0 < length byte_array)%nat ->
        Z.of_nat (length byte_array) < one_mb_bytes ->
        free d = Z.of_nat (S m) * Z.of_nat (length byte_array) ->
        exists d',
          write_byte_array_contiguously no_faults (S m) byte_array path d
            = (Some (Return tt), d')
          /\ free d' = Z.of_nat (length byte_array)).
Proof.
  split; [|split].
  - destruct (fine_loop_trace faults byte_array path
                (range_len (Z.of_nat (length byte_array) / one_mb_bytes)) 0 d)
      as (frees & Htr & Hlen & _).
    exists frees. split; [exact Htr|].
    unfold range_len in Hlen.
    assert (0 <= Z.of_nat (length byte_array) / one_mb_bytes)
      by (apply Z.div_pos; unfold one_mb_bytes; lia).
    lia.
  - intros Hshort. rewrite (fine_indices_short byte_array Hshort). reflexivity.
  - intros m Hpos Hshort Hfree. apply short_buffer_run; assumption.
Qed.

Lemma fine_phase_writes_leading_slices_witness :
  fine_loop no_faults [1; 2; 3] DATA_FILEPATH (fine_indices [1; 2; 3])
            (mkDrive (mkFS ∅ ∅) 9 0 [])
    = (Some (Return tt), mkDrive (mkFS ∅ ∅) 9 0 [])
  /\ exists d',
       write_byte_array_contiguously no_faults 3 [1; 2; 3] DATA_FILEPATH
         (mkDrive (mkFS ∅ ∅) 9 0 []) = (Some (Return tt), d')
       /\ free d' = Z.of_nat (length [1; 2; 3]).
Proof.
  pose proof (fine_phase_writes_leading_slices no_faults [1; 2; 3] DATA_FILEPATH
                (mkDrive (mkFS ∅ ∅) 9 0 [])) as (_ & Hnone & Hrun).
  split.
  - apply Hnone. vm_compute. reflexivity.
  - apply (Hrun 2%nat).
    + simpl. lia.
    + vm_compute. reflexivity.
    + vm_compute. reflexivity.
Defined.

End ContiguousFillerFacts.

(** * Properties of ThroughputBenchmark *)

Module BenchmarkFacts.
Import Benchmark BenchmarkSpec ContinuousWriter ContinuousWriterSpec ContinuousWriterFacts.

Lemma create_bytearray_killobytes_returns (rand : nat -> Byte.byte)
    (count fill : Z) (s : nat) :
  valid_fill fill ->
  exists buffer s',
    BufferFactory.create_bytearray_killobytes rand count fill s = (Return buffer, s').
Proof.
  intros [-> | Hf]; unfold BufferFactory.create_bytearray_killobytes.
  - destruct (BufferFactoryFacts.create_bytearray_random rand 1024 s)
      as (block & -> & _). eauto.
  - rewrite BufferFactoryFacts.create_bytearray_constant by assumption. eauto.
Qed.

Lemma killobytes_list_value :
  killobytes_list
  = [1; 4; 32; 128; 1024; 4096; 32768; 131072;
     2; 8; 64; 256; 2048; 8192; 65536; 262144;
     3; 12; 96; 384; 3072; 12288; 98304; 393216].
Proof. reflexivity. Qed.

Lemma sorted_killobytes_list_value :
  sorted killobytes_list
  = [1; 2; 3; 4; 8; 12; 32; 64; 96; 128; 256; 384; 1024; 2048; 3072; 4096;
     8192; 12288; 32768; 65536; 98304; 131072; 262144; 393216].
Proof. vm_compute. reflexivity. Qed.

(** A fill that is neither the sentinel nor a byte stops the sweep at its
    first candidate: the 1 KiB block cannot be built. *)
Lemma sweep_invalid_fill (clock : nat -> Q) (rand : nat -> Byte.byte)
    (fuel : nat) (killobytes : Z) (rest : list Z) (path : string) (fill : Z)
    (acc : Sweep) (w : World) :
  fill <> -1 -> fill < 0 \/ 255 < fill ->
  sweep clock rand fuel (killobytes :: rest) path fill acc w
  = Some (Raise ValueError, mkWorld (fs w) (ticks w) (draws w)).
Proof.
  intros Hs Hf.
  assert (Hbuf : BufferFactory.create_bytearray_killobytes rand killobytes fill (draws w)
                 = (Raise ValueError, draws w)).
  { unfold BufferFactory.create_bytearray_killobytes.
    rewrite BufferFactoryFacts.create_bytearray_invalid by (lia || assumption).
    reflexivity. }
  cbn [sweep]. rewrite Hbuf. reflexivity.
Qed.

(** With a fill of 300 the benchmark fails only when the first buffer is
    built, after validation has returned and the directories exist. *)
Lemma benchmark_fill_300_fails_late (clock : nat -> Q) (rand : nat -> Byte.byte)
    (to_csv : list Row -> bytearray) (fuel : nat)
    (data_filepath perf_filepath : string) (w : World) :
  create_byte_array_high_throughput clock rand to_csv fuel data_filepath
                                    perf_filepath 300 w
  = Some (Raise ValueError,
          mkWorld (Validation.ensure_dirs [data_filepath; perf_filepath] (fs w))
                  (ticks w) (draws w)).
Proof.
  unfold create_byte_array_high_throughput.
  rewrite ValidationFacts.validate_kwargs_accepts
    by (unfold DURATION, ITERATIONS; (lra || lia)).
  rewrite sorted_killobytes_list_value.
  rewrite sweep_invalid_fill by lia.
  reflexivity.
Qed.

End BenchmarkFacts.

(** * Further properties of BufferFactory *)

Module BufferFactoryMore.
Import BufferFactory BufferFactoryFacts.

Lemma bytearray_of_inv (items buffer : list Z) :
  bytearray_of items = Return buffer ->
  buffer = items /\ Forall (fun b => 0 <= b < 256) items.
Proof.
  unfold bytearray_of. destruct (forallb is_byte items) eqn:E; [|discriminate].
  intros [= <-]. split; [reflexivity|].
  apply List.Forall_forall. intros x Hx.
  rewrite forallb_forall in E. specialize (E x Hx).
  unfold is_byte in E. apply andb_true_iff in E as [E1 E2].
  apply Z.leb_le in E1. apply Z.ltb_lt in E2. lia.
Qed.

Lemma extend_fold_concat (killobyte : list Z) (l : list nat) (acc : list Z) :
  fold_left (fun a _ => a ++ killobyte) l acc
  = acc ++ concat (repeat killobyte (length l)).
Proof.
  revert acc. induction l as [|i l IH]; intros acc; cbn [fold_left length repeat concat].
  - rewrite app_nil_r. reflexivity.
  - rewrite IH, <- app_assoc. reflexivity.
Qed.

Lemma map_const_repeat {A : Type} (x : Z) (l : list A) :
  map (fun _ => x) l = repeat x (length l).
Proof. induction l as [|a l IH]; cbn; [reflexivity | rewrite IH; reflexivity]. Qed.

(** X1.  [create_bytearray] with a count of zero or less returns the empty
    buffer without looking at [fill] and without drawing a random number. *)
Theorem create_bytearray_nonpositive_count (rand : nat -> Byte.byte)
    (count fill : Z) (s : nat) :
  count <= 0 -> create_bytearray rand count fill s = (Return [], s).
Proof.
  intros Hc. unfold create_bytearray, range_len.
  replace (Z.to_nat count) with 0%nat by lia. cbn [seq map].
  rewrite Nat.add_0_r. destruct (fill =? FILL); reflexivity.
Qed.

Lemma create_bytearray_nonpositive_count_witness :
  create_bytearray (fun _ => x00%byte) (-3) 300 4 = (Return [], 4%nat).
Proof.
  apply (create_bytearray_nonpositive_count (fun _ => x00%byte) (-3) 300 4). lia.
Defined.

(** X2.  A buffer returned by [create_bytearray_killobytes] is one block of
    1024 bytes repeated [count] times.  With the sentinel fill the block is
    the next 1024 draws of the generator, made once; with another fill it is
    that value 1024 times and no draw is made. *)
Theorem create_bytearray_killobytes_repeats_block (rand : nat -> Byte.byte)
    (count fill : Z) (s s' : nat) (buffer : list Z) :
  create_bytearray_killobytes rand count fill s = (Return buffer, s') ->
  exists block : list Z,
    length block = 1024%nat
    /\ Forall (fun b => 0 <= b < 256) block
    /\ buffer = concat (repeat block (Z.to_nat count))
    /\ (fill = -1 ->
        block = map (fun i => randint_0_255 rand (s + i)) (seq 0 1024)
        /\ s' = (s + 1024)%nat)
    /\ (fill <> -1 -> block = repeat fill 1024 /\ s' = s).
Proof.
  unfold create_bytearray_killobytes, create_bytearray, FILL.
  change (range_len 1024) with 1024%nat.
  destruct (fill =? -1) eqn:Efill.
  - apply Z.eqb_eq in Efill.
    destruct (bytearray_of (map _ (seq 0 1024))) as [block | e] eqn:Eblock;
      [|discriminate].
    intros [= <- <-]. apply bytearray_of_inv in Eblock as [-> Hbytes].
    eexists. split; [|split; [exact Hbytes|split; [|split]]].
    + rewrite length_map, length_seq. reflexivity.
    + unfold extend_loop. rewrite extend_fold_concat, length_seq. reflexivity.
    + intros _. split; reflexivity.
    + intros Hne. contradiction.
  - apply Z.eqb_neq in Efill.
    destruct (bytearray_of (map _ (seq 0 1024))) as [block | e] eqn:Eblock;
      [|discriminate].
    intros [= <- <-]. apply bytearray_of_inv in Eblock as [-> Hbytes].
    eexists. split; [|split; [exact Hbytes|split; [|split]]].
    + rewrite length_map, length_seq. reflexivity.
    + unfold extend_loop. rewrite extend_fold_concat, length_seq. reflexivity.
    + intros Heq. contradiction.
    + intros _. split; [|reflexivity].
      rewrite map_const_repeat, length_seq. reflexivity.
Qed.

Lemma create_bytearray_killobytes_repeats_block_witness :
  exists block : list Z,
    length block = 1024%nat
    /\ Forall (fun b => 0 <= b < 256) block
    /\ repeat 7 2048 = concat (repeat block (Z.to_nat 2))
    /\ (-1 = -1 ->
        block = map (fun i => randint_0_255 (fun _ => x07%byte) (5 + i)) (seq 0 1024)
        /\ 1029%nat = (5 + 1024)%nat)
    /\ (-1 <> -1 -> block = repeat (-1) 1024 /\ 1029%nat = 5%nat).
Proof.
  apply (create_bytearray_killobytes_repeats_block (fun _ => x07%byte) 2 (-1) 5
           1029 (repeat 7 2048)).
  vm_compute. reflexivity.
Defined.

End BufferFactoryMore.

(** * Further properties of validation *)

Module ValidationMore.
Import Validation ValidationSpec ValidationFacts.

#[local] Set Warnings "-clear-no-such-hyp".

Lemma length_string_of_list_ascii (l : list Ascii.ascii) :
  String.length (string_of_list_ascii l) = length l.
Proof.
  induction l as [|c l IH]; cbn [string_of_list_ascii String.length length];
    congruence.
Qed.

Lemma length_list_ascii_of_string (s : string) :
  length (list_ascii_of_string s) = String.length s.
Proof.
  induction s as [|c s IH]; cbn [list_ascii_of_string String.length length];
    congruence.
Qed.

Lemma drop_while_length {A : Type} (p : A -> bool) (l : list A) :
  (length (drop_while p l) <= length l)%nat.
Proof.
  induction l as [|x l IH]; cbn [drop_while length]; [lia|].
  destruct (p x); cbn [length]; lia.
Qed.

Lemma dirname_length_rev (l : list Ascii.ascii) :
  let head_rev := drop_while (fun c => negb (is_sep c)) l in
  (String.length
     (if forallb is_sep head_rev
      then string_of_list_ascii (rev head_rev)
      else string_of_list_ascii (rev (drop_while is_sep head_rev)))
   <= length (drop_while (fun c => negb (is_sep c)) l))%nat.
Proof.
  cbn zeta. destruct (forallb is_sep _);
    rewrite length_string_of_list_ascii, length_rev; [lia|].
  apply drop_while_length.
Qed.

(** [dirname] never lengthens a name ... *)
Lemma dirname_length (p : string) :
  (String.length (dirname p) <= String.length p)%nat.
Proof.
  unfold dirname. cbn zeta.
  etransitivity; [apply dirname_length_rev|].
  etransitivity; [apply drop_while_length|].
  rewrite length_rev, length_list_ascii_of_string. lia.
Qed.

(** ... and shortens one that has a last component. *)
Lemma dirname_shorter (p : string) :
  nonempty (basename p) = true ->
  (String.length (dirname p) < String.length p)%nat.
Proof.
  unfold dirname, basename. cbn zeta.
  rewrite <- (length_list_ascii_of_string p), <- (length_rev (list_ascii_of_string p)).
  destruct (rev (list_ascii_of_string p)) as [|c l]; [discriminate|].
  cbn [take_while]. destruct (negb (is_sep c)) eqn:Ec.
  - intros _. eapply Nat.le_lt_trans; [apply dirname_length_rev|].
    cbn [drop_while]. rewrite Ec.
    eapply Nat.le_lt_trans; [apply drop_while_length|]. cbn [length]. lia.
  - discriminate.
Qed.

Lemma nonempty_true (s : string) : nonempty s = true <-> s <> EmptyString.
Proof.
  destruct s; cbn; split; (congruence || discriminate || auto).
Qed.

Lemma path_exists_mkdir (p d : string) (fs0 : FS) :
  path_exists p fs0 = true -> path_exists p (mkdir d fs0) = true.
Proof.
  unfold path_exists, mkdir. cbn [dirs files].
  intros H. apply orb_true_iff in H as [H | H]; apply orb_true_iff.
  - left. apply bool_decide_eq_true in H. apply bool_decide_eq_true. set_solver.
  - right. exact H.
Qed.

(** What [os.makedirs] does to the directories: [name] is made, nothing is
    removed, and whatever is made is [name] or an ancestor of it and has its
    parent. *)
Lemma makedirs_from_dirs (fuel : nat) (name : string) (fs0 : FS) :
  (String.length name <= fuel)%nat ->
  name ∈ dirs (makedirs_from fuel name fs0)
  /\ dirs fs0 ⊆ dirs (makedirs_from fuel name fs0)
  /\ (forall d, d ∈ dirs (makedirs_from fuel name fs0) ->
        d ∈ dirs fs0
        \/ (reaches name d /\ parent_present d (makedirs_from fuel name fs0))).
Proof.
  revert name. induction fuel as [|fuel IH]; intros name Hfuel.
  - destruct name; [|cbn [String.length] in Hfuel; lia].
    change (makedirs_from 0 EmptyString fs0) with (mkdir EmptyString fs0).
    cbn [mkdir dirs]. split; [set_solver|]. split; [set_solver|].
    intros d Hd. apply elem_of_union in Hd as [Hd | Hd]; [|left; exact Hd].
    apply elem_of_singleton in Hd as ->. right. split; [exists 0%nat; reflexivity|].
    intros H. exfalso. apply H. reflexivity.
  - cbn [makedirs_from].
    set (head := if nonempty (basename name) then dirname name
                 else dirname (dirname name)).
    set (tail := if nonempty (basename name) then basename name
                 else basename (dirname name)).
    assert (Hreach : reaches name head).
    { subst head. destruct (nonempty (basename name));
        [exists 1%nat | exists 2%nat]; reflexivity. }
    destruct (nonempty head && nonempty tail && negb (path_exists head fs0))
      eqn:Econd.
    + apply andb_true_iff in Econd as [Econd _].
      apply andb_true_iff in Econd as [_ Htail].
      assert (Hlen : (String.length head <= fuel)%nat).
      { subst head tail. destruct (nonempty (basename name)) eqn:Eb.
        - pose proof (dirname_shorter name Eb). lia.
        - pose proof (dirname_shorter (dirname name) Htail).
          pose proof (dirname_length name). lia. }
      destruct (IH head Hlen) as (Hin & Hsub & Hnew).
      cbn [mkdir dirs]. split; [set_solver|]. split; [set_solver|].
      intros d Hd. apply elem_of_union in Hd as [Hd | Hd].
      * apply elem_of_singleton in Hd as ->. right.
        split; [exists 0%nat; reflexivity|].
        intros Hb _. apply nonempty_true in Hb. subst head. rewrite Hb in *.
        unfold path_exists. cbn [dirs]. apply orb_true_iff. left.
        apply bool_decide_eq_true. apply elem_of_union_r. exact Hin.
      * destruct (Hnew d Hd) as [Hold | [Hr Hp]]; [left; exact Hold|]. right.
        split.
        -- destruct Hr as [n ->]. destruct Hreach as [m ->]. exists (n + m)%nat.
           symmetry. apply Nat.iter_add.
        -- intros Hb Hdn. apply path_exists_mkdir. exact (Hp Hb Hdn).
    + cbn [mkdir dirs]. split; [set_solver|]. split; [set_solver|].
      intros d Hd. apply elem_of_union in Hd as [Hd | Hd]; [|left; exact Hd].
      apply elem_of_singleton in Hd as ->. right.
      split; [exists 0%nat; reflexivity|].
      intros Hb Hdn. apply nonempty_true in Hb. apply nonempty_true in Hdn.
      subst head tail. rewrite Hb in Econd. rewrite Hdn, Hb in Econd.
      cbn [andb] in Econd. apply negb_false_iff in Econd.
      apply path_exists_mkdir. exact Econd.
Qed.

Lemma parent_present_mono (d : string) (fs0 fs1 : FS) :
  dirs fs0 ⊆ dirs fs1 -> files fs1 = files fs0 ->
  parent_present d fs0 -> parent_present d fs1.
Proof.
  intros Hsub Hfiles Hp Hb Hdn. specialize (Hp Hb Hdn).
  unfold path_exists in *. rewrite Hfiles.
  apply orb_true_iff in Hp as [H | H]; apply orb_true_iff; [left | right; exact H].
  apply bool_decide_eq_true in H. apply bool_decide_eq_true. set_solver.
Qed.

(** The same for the loop over the two paths. *)
Lemma ensure_dirs_dirs (filepaths : list string) (fs0 : FS) :
  (forall p, In p filepaths -> dirname p ∈ dirs (ensure_dirs filepaths fs0))
  /\ dirs fs0 ⊆ dirs (ensure_dirs filepaths fs0)
  /\ (forall d, d ∈ dirs (ensure_dirs filepaths fs0) ->
        d ∈ dirs fs0
        \/ ((exists p, In p filepaths /\ reaches (dirname p) d)
            /\ parent_present d (ensure_dirs filepaths fs0))).
Proof.
  revert fs0. induction filepaths as [|p l IH]; intros fs0; cbn [ensure_dirs].
  - split; [intros p []|]. split; [set_solver|]. intros d Hd. left. exact Hd.
  - unfold isdir. destruct (bool_decide (dirname p ∈ dirs fs0)) eqn:E; cbn [negb].
    + apply bool_decide_eq_true in E.
      destruct (IH fs0) as (Hin & Hsub & Hnew). split; [|split].
      * intros q [<- | Hq]; [set_solver | exact (Hin q Hq)].
      * exact Hsub.
      * intros d Hd. destruct (Hnew d Hd) as [H | [(q & Hq & Hr) Hp]];
          [left; exact H | right].
        split; [exists q; split; [right; exact Hq | exact Hr] | exact Hp].
    + unfold makedirs.
      destruct (makedirs_from_dirs (String.length (dirname p)) (dirname p) fs0
                  (le_n _)) as (Hmade & Hkept & Hmk).
      set (fs1 := makedirs_from (String.length (dirname p)) (dirname p) fs0) in *.
      destruct (IH fs1) as (Hin & Hsub & Hnew). split; [|split].
      * intros q [<- | Hq]; [set_solver | exact (Hin q Hq)].
      * set_solver.
      * intros d Hd. destruct (Hnew d Hd) as [H | [(q & Hq & Hr) Hp]].
        -- destruct (Hmk d H) as [Hold | [Hr Hp]]; [left; exact Hold | right].
           split; [exists p; split; [left; reflexivity | exact Hr]|].
           apply (parent_present_mono d fs1); [exact Hsub | | exact Hp].
           rewrite ensure_dirs_files. reflexivity.
        -- right.
           split; [exists q; split; [right; exact Hq | exact Hr] | exact Hp].
Qed.

Lemma ensure_dirs_id (filepaths : list string) (fs0 : FS) :
  (forall p, In p filepaths -> dirname p ∈ dirs fs0) ->
  ensure_dirs filepaths fs0 = fs0.
Proof.
  induction filepaths as [|p l IH]; intros Hall; cbn [ensure_dirs]; [reflexivity|].
  unfold isdir. rewrite bool_decide_eq_true_2 by (apply Hall; left; reflexivity).
  cbn [negb]. apply IH. intros q Hq. apply Hall. right. exact Hq.
Qed.

Lemma validate_kwargs_return_inv
    (operation log_level : string) (fill size : Z) (duration : Q)
    (iterations : Z) (data_filepath perf_filepath : string) (fs0 fs1 : FS) :
  validate_kwargs operation log_level fill size duration iterations
                  data_filepath perf_filepath fs0 = (Return tt, fs1) ->
  fs1 = ensure_dirs [data_filepath; perf_filepath] fs0
  /\ str_in operation OPERATIONS = true /\ str_in log_level LOG_LEVELS = true
  /\ 1 <= size /\ (0 <= duration)%Q /\ 0 <= iterations.
Proof.
  unfold validate_kwargs.
  destruct (str_in operation OPERATIONS); cbn [negb]; [|discriminate].
  destruct (str_in log_level LOG_LEVELS); cbn [negb]; [|discriminate].
  destruct (size <? 1) eqn:Esz; [discriminate|].
  rewrite fill_guard_dead.
  destruct (Qlt_bool duration 0) eqn:Ed; [discriminate|].
  destruct (iterations <? 0) eqn:Ei; [discriminate|].
  intros [= <-]. apply Z.ltb_ge in Esz. apply Z.ltb_ge in Ei.
  apply Qlt_bool_false_iff in Ed. repeat split; (assumption || reflexivity).
Qed.

(** A rejection leaves the file system alone, and its kind is decided by
    the two membership tests. *)
Lemma validate_kwargs_raise_inv
    (operation log_level : string) (fill size : Z) (duration : Q)
    (iterations : Z) (data_filepath perf_filepath : string) (fs0 fs1 : FS)
    (e : exn) :
  validate_kwargs operation log_level fill size duration iterations
                  data_filepath perf_filepath fs0 = (Raise e, fs1) ->
  fs1 = fs0
  /\ e = (if str_in operation OPERATIONS && str_in log_level LOG_LEVELS
          then ValueError else KeyError).
Proof.
  unfold validate_kwargs.
  destruct (str_in operation OPERATIONS); cbn [negb andb];
    [|intros [= <- <-]; split; reflexivity].
  destruct (str_in log_level LOG_LEVELS); cbn [negb];
    [|intros [= <- <-]; split; reflexivity].
  destruct (size <? 1); [intros [= <- <-]; split; reflexivity|].
  rewrite fill_guard_dead.
  destruct (Qlt_bool duration 0); [intros [= <- <-]; split; reflexivity|].
  destruct (iterations <? 0); [intros [= <- <-]; split; reflexivity|].
  discriminate.
Qed.

Lemma validate_kwargs_invalid_raises
    (operation log_level : string) (fill size : Z) (duration : Q)
    (iterations : Z) (data_filepath perf_filepath : string) (fs0 : FS) :
  str_in operation OPERATIONS = false \/ str_in log_level LOG_LEVELS = false
    \/ size < 1 \/ (duration < 0)%Q \/ iterations < 0 ->
  exists e fs1,
    validate_kwargs operation log_level fill size duration iterations
                    data_filepath perf_filepath fs0 = (Raise e, fs1).
Proof.
  intros H.
  destruct (validate_kwargs operation log_level fill size duration iterations
              data_filepath perf_filepath fs0) as [[[] | e] fs1] eqn:E; [|eauto].
  exfalso. apply validate_kwargs_return_inv in E as (_ & Hop & Hll & Hsz & Hd & Hi).
  destruct H as [H | [H | [H | [H | H]]]]; try congruence; try lia.
  exact (Qlt_not_le _ _ H Hd).
Qed.

(** X3.  An argument that is rejected is rejected before the file system is
    touched; an unknown operation or log level gives [KeyError], a size
    below 1 or a negative duration or iteration count gives [ValueError]. *)
Theorem validate_kwargs_error_kinds
    (operation log_level : string) (fill size : Z) (duration : Q)
    (iterations : Z) (data_filepath perf_filepath : string) (fs0 : FS) :
  str_in operation OPERATIONS = false \/ str_in log_level LOG_LEVELS = false
    \/ size < 1 \/ (duration < 0)%Q \/ iterations < 0 ->
  validate_kwargs operation log_level fill size duration iterations
                  data_filepath perf_filepath fs0
  = (Raise (if str_in operation OPERATIONS && str_in log_level LOG_LEVELS
            then ValueError else KeyError), fs0).
Proof.
  intros H.
  destruct (validate_kwargs_invalid_raises operation log_level fill size duration
              iterations data_filepath perf_filepath fs0 H) as (e & fs1 & E).
  rewrite E. apply validate_kwargs_raise_inv in E as [-> ->]. reflexivity.
Qed.

Lemma validate_kwargs_error_kinds_witness :
  validate_kwargs "bogus"%string "INFO"%string (-1) 0 5 10
                  DATA_FILEPATH PERF_FILEPATH (mkFS ∅ ∅)
  = (Raise (if str_in "bogus"%string OPERATIONS && str_in "INFO"%string LOG_LEVELS
            then ValueError else KeyError), mkFS ∅ ∅).
Proof.
  apply (validate_kwargs_error_kinds "bogus"%string "INFO"%string (-1) 0 5 10
           DATA_FILEPATH PERF_FILEPATH (mkFS ∅ ∅)).
  left. reflexivity.
Defined.

(** X4.  The outcome of validation does not depend on [fill]: whatever is
    accepted or rejected with one fill is accepted or rejected, with the
    same effect, with any other. *)
Theorem validate_kwargs_ignores_fill
    (operation log_level : string) (fill fill' size : Z) (duration : Q)
    (iterations : Z) (data_filepath perf_filepath : string) (fs0 : FS) :
  validate_kwargs operation log_level fill size duration iterations
                  data_filepath perf_filepath fs0
  = validate_kwargs operation log_level fill' size duration iterations
                    data_filepath perf_filepath fs0.
Proof.
  unfold validate_kwargs. rewrite !fill_guard_dead. reflexivity.
Qed.

(** X5.  After a successful validation the directories of both paths exist;
    no file was created or changed and no directory removed; and every
    directory that was made is the directory of one of the two paths or an
    ancestor of it, and has its parent: the missing parents are made too. *)
Theorem validate_kwargs_ensures_directories
    (operation log_level : string) (fill size : Z) (duration : Q)
    (iterations : Z) (data_filepath perf_filepath : string) (fs0 fs1 : FS) :
  validate_kwargs operation log_level fill size duration iterations
                  data_filepath perf_filepath fs0 = (Return tt, fs1) ->
  isdir (dirname data_filepath) fs1 = true
  /\ isdir (dirname perf_filepath) fs1 = true
  /\ files fs1 = files fs0
  /\ dirs fs0 ⊆ dirs fs1
  /\ (forall d, d ∈ dirs fs1 -> d ∉ dirs fs0 ->
        (reaches (dirname data_filepath) d \/ reaches (dirname perf_filepath) d)
        /\ parent_present d fs1).
Proof.
  intros H. apply validate_kwargs_return_inv in H as (-> & _).
  destruct (ensure_dirs_dirs [data_filepath; perf_filepath] fs0)
    as (Hin & Hsub & Hnew).
  split; [|split; [|split; [|split]]].
  - apply bool_decide_eq_true. apply Hin. left. reflexivity.
  - apply bool_decide_eq_true. apply Hin. right. left. reflexivity.
  - apply ensure_dirs_files.
  - exact Hsub.
  - intros d Hd Hfresh.
    destruct (Hnew d Hd) as [Hold | [(p & Hp & Hr) Hpar]]; [contradiction|].
    split; [|exact Hpar].
    destruct Hp as [<- | [<- | []]]; [left | right]; exact Hr.
Qed.

Lemma validate_kwargs_ensures_directories_witness :
  let fs0 := mkFS {[ "/"%string ]} ∅ in
  let fs1 := ensure_dirs ["/tmp/run/n1/data.dat"%string; PERF_FILEPATH] fs0 in
  isdir (dirname "/tmp/run/n1/data.dat"%string) fs1 = true
  /\ isdir (dirname PERF_FILEPATH) fs1 = true
  /\ files fs1 = files fs0
  /\ dirs fs0 ⊆ dirs fs1
  /\ (forall d, d ∈ dirs fs1 -> d ∉ dirs fs0 ->
        (reaches (dirname "/tmp/run/n1/data.dat"%string) d
         \/ reaches (dirname PERF_FILEPATH) d)
        /\ parent_present d fs1).
Proof.
  apply (validate_kwargs_ensures_directories "perf"%string "INFO"%string (-1) 1 5 10
           "/tmp/run/n1/data.dat"%string PERF_FILEPATH (mkFS {[ "/"%string ]} ∅)).
  reflexivity.
Defined.

(** Below an existing [/tmp], the directory of a data file three levels
    down is made together with its two missing parents. *)
Example makedirs_makes_missing_parents :
  let fs1 := ensure_dirs ["/tmp/adp_v/n1/n2/data.dat"%string]
                         (mkFS {[ "/"%string; "/tmp"%string ]} ∅) in
  isdir "/tmp/adp_v"%string fs1 = true
  /\ isdir "/tmp/adp_v/n1"%string fs1 = true
  /\ isdir "/tmp/adp_v/n1/n2"%string fs1 = true
  /\ size (dirs fs1) = 5%nat.
Proof. vm_compute. repeat split. Qed.

(** X6.  Validation is idempotent: validating again on the file system a
    successful validation left changes nothing. *)
Theorem validate_kwargs_idempotent
    (operation log_level : string) (fill size : Z) (duration : Q)
    (iterations : Z) (data_filepath perf_filepath : string) (fs0 fs1 : FS) :
  validate_kwargs operation log_level fill size duration iterations
                  data_filepath perf_filepath fs0 = (Return tt, fs1) ->
  validate_kwargs operation log_level fill size duration iterations
                  data_filepath perf_filepath fs1 = (Return tt, fs1).
Proof.
  intros H.
  apply validate_kwargs_return_inv in H as (-> & Hop & Hll & Hsz & Hdur & Hit).
  unfold validate_kwargs. rewrite Hop, Hll. cbn [negb].
  replace (size <? 1) with false by (symmetry; apply Z.ltb_ge; lia).
  rewrite fill_guard_dead.
  replace (Qlt_bool duration 0) with false
    by (symmetry; apply Qlt_bool_false_iff; exact Hdur).
  replace (iterations <? 0) with false by (symmetry; apply Z.ltb_ge; lia).
  f_equal. apply ensure_dirs_id. intros p Hp.
  apply (proj1 (ensure_dirs_dirs [data_filepath; perf_filepath] fs0)). exact Hp.
Qed.

Lemma validate_kwargs_idempotent_witness :
  validate_kwargs "fill"%string "DEBUG"%string 0 4 5 10 DATA_FILEPATH PERF_FILEPATH
                  (ensure_dirs [DATA_FILEPATH; PERF_FILEPATH] (mkFS ∅ ∅))
  = (Return tt, ensure_dirs [DATA_FILEPATH; PERF_FILEPATH] (mkFS ∅ ∅)).
Proof.
  apply (validate_kwargs_idempotent "fill"%string "DEBUG"%string 0 4 5 10
           DATA_FILEPATH PERF_FILEPATH (mkFS ∅ ∅)).
  reflexivity.
Defined.

End ValidationMore.

(** * Further properties of ContinuousWriter *)

Module ContinuousWriterMore.
Import ContinuousWriter ContinuousWriterSpec ValidationFacts ContinuousWriterFacts.

Lemma written_other (k : nat) (path other : string) (byte_array : list Z) (fs0 : FS) :
  other <> path ->
  files (written k path byte_array fs0) !! other = files fs0 !! other.
Proof.
  intros Hne. revert fs0. induction k as [|k IH]; intros fs0.
  - reflexivity.
  - rewrite written_succ_r, IH. unfold file_append. cbn [files].
    apply lookup_insert_ne. congruence.
Qed.

Lemma written_dirs (k : nat) (path : string) (byte_array : list Z) (fs0 : FS) :
  dirs (written k path byte_array fs0) = dirs fs0.
Proof.
  revert fs0. induction k as [|k IH]; intros fs0; [reflexivity|].
  rewrite written_succ_r, IH. reflexivity.
Qed.

(** X7.  A negative duration or iteration count is refused with
    [ValueError] before the data file is opened: the world is left as it
    was, the file is neither created nor truncated and no time is read. *)
Theorem write_byte_array_continuously_fails_fast (clock : nat -> Q) (fuel : nat)
    (byte_array : list Z) (path : string) (duration : Q) (iterations : Z)
    (w : World) :
  (duration < 0)%Q \/ iterations < 0 ->
  write_byte_array_continuously clock fuel byte_array path duration iterations w
  = Some (Raise ValueError, w).
Proof.
  intros H. unfold write_byte_array_continuously.
  destruct (ValidationMore.validate_kwargs_invalid_raises "perf"%string LOG_LEVEL
              FILL SIZE duration iterations path PERF_FILEPATH (fs w))
    as (e & fs1 & E); [right; right; right; exact H|].
  rewrite E. apply ValidationMore.validate_kwargs_raise_inv in E as [-> ->].
  destruct w. reflexivity.
Qed.

Lemma write_byte_array_continuously_fails_fast_witness :
  write_byte_array_continuously seconds_clock 0 [1; 2; 3] DATA_FILEPATH (-1) 10
                                (mkWorld (mkFS ∅ ∅) 0 0)
  = Some (Raise ValueError, mkWorld (mkFS ∅ ∅) 0 0).
Proof.
  apply (write_byte_array_continuously_fails_fast seconds_clock 0 [1; 2; 3]
           DATA_FILEPATH (-1) 10 (mkWorld (mkFS ∅ ∅) 0 0)).
  left. reflexivity.
Defined.

(** X8.  With a zero duration and a clock that does not go back, the loop
    runs exactly [iterations] times, whatever the clock shows: the run
    writes [iterations] copies of the buffer and returns
    [iterations * len(byte_array)] bytes written, unless its elapsed time is
    zero and the throughput division fails. *)
Theorem zero_duration_runs_exactly_iterations (clock : nat -> Q)
    (byte_array : list Z) (path : string) (iterations : Z) (w : World)
    (fuel : nat) :
  monotone clock -> 0 <= iterations -> (Z.to_nat iterations < fuel)%nat ->
  exists (out : result write_result) (w' : World),
    write_byte_array_continuously clock fuel byte_array path 0 iterations w
      = Some (out, w')
    /\ files (fs w') !! path
       = Some (concat (repeat byte_array (Z.to_nat iterations)))
    /\ ticks w' = (ticks w + Z.to_nat iterations + 3)%nat
    /\ (out = Raise ZeroDivisionError
        \/ exists elapsed : Q,
             out = Return (iterations * Z.of_nat (length byte_array), elapsed,
                           iterations)).
Proof.
  intros Hmono Hi Hfuel.
  destruct (write_loop_terminates clock byte_array path (clock (ticks w)) 0
              iterations (Z.to_nat iterations) 0 (loop_start path w))
    as [[n w3] Hrun].
  - intros j Hj. cbn [loop_start ticks] in Hj.
    assert (clock (ticks w) <= clock j)%Q by (apply Hmono; lia). lra.
  - lia.
  - destruct (write_loop_exit _ _ _ _ _ _ _ _ _ _ _ Hrun)
      as (k & Hn & Hw & _ & Hits & Hbefore).
    subst n w3. rewrite Z.add_0_l in *.
    assert (Hk : k = Z.to_nat iterations).
    { destruct (Nat.lt_ge_cases (Z.to_nat iterations) k) as [Hlt | Hge]; [|lia].
      destruct (Hbefore (Z.to_nat iterations) Hlt) as [H | H]; [|lia].
      cbn [loop_start ticks] in H.
      assert (clock (ticks w) <= clock (S (ticks w) + Z.to_nat iterations)%nat)%Q
        by (apply Hmono; lia).
      lra. }
    subst k.
    exists (run_outcome clock byte_array w (Z.to_nat iterations)),
           (finished (Z.to_nat iterations) path byte_array w).
    split; [|split; [|split]].
    + apply write_byte_array_continuously_run; [lra | assumption |].
      eapply write_loop_more_fuel; [|exact Hrun]. lia.
    + unfold finished. cbn [fs].
      rewrite (written_content _ path byte_array []); [reflexivity|].
      unfold loop_start, open_wb. cbn [fs files]. apply lookup_insert_eq.
    + reflexivity.
    + unfold run_outcome. destruct (Qeq_bool _ 0); [left; reflexivity|].
      right. eexists. rewrite Z2Nat.id by assumption. reflexivity.
Qed.

Lemma zero_duration_runs_exactly_iterations_witness :
  exists (out : result write_result) (w' : World),
    write_byte_array_continuously seconds_clock 4 [1; 2] DATA_FILEPATH 0 3
                                  (mkWorld (mkFS ∅ ∅) 0 0) = Some (out, w')
    /\ files (fs w') !! DATA_FILEPATH = Some (concat (repeat [1; 2] (Z.to_nat 3)))
    /\ ticks w' = (ticks (mkWorld (mkFS ∅ ∅) 0 0) + Z.to_nat 3 + 3)%nat
    /\ (out = Raise ZeroDivisionError
        \/ exists elapsed : Q,
             out = Return (3 * Z.of_nat (length [1; 2]), elapsed, 3)).
Proof.
  apply (zero_duration_runs_exactly_iterations seconds_clock [1; 2] DATA_FILEPATH 3
           (mkWorld (mkFS ∅ ∅) 0 0) 4).
  - exact seconds_clock_monotone.
  - lia.
  - simpl. lia.
Defined.

(** X9.  Whatever the data file held before, after a run that got past
    validation it holds the buffer repeated as many times as the loop ran,
    and that count is the third component of a returned triple; every other
    file is as it was. *)
Theorem write_byte_array_continuously_overwrites (clock : nat -> Q) (fuel : nat)
    (byte_array : list Z) (path : string) (duration : Q) (iterations : Z)
    (w w' : World) (out : result write_result) :
  (0 <= duration)%Q -> 0 <= iterations ->
  write_byte_array_continuously clock fuel byte_array path duration iterations w
    = Some (out, w') ->
  exists k : nat,
    files (fs w') !! path = Some (concat (repeat byte_array k))
    /\ (forall other, other <> path ->
          files (fs w') !! other = files (fs w) !! other)
    /\ iterations <= Z.of_nat k
    /\ (out = Raise ZeroDivisionError
        \/ exists elapsed : Q,
             out = Return (Z.of_nat k * Z.of_nat (length byte_array), elapsed,
                           Z.of_nat k)).
Proof.
  intros Hd Hi Hrun.
  destruct (write_loop clock fuel byte_array path (clock (ticks w)) duration
              iterations 0 (loop_start path w)) as [[n w3] |] eqn:Hloop.
  - destruct (write_loop_exit _ _ _ _ _ _ _ _ _ _ _ Hloop)
      as (k & Hn & Hw & _ & Hits & _).
    subst n w3. rewrite Z.add_0_l in *.
    rewrite (write_byte_array_continuously_run clock fuel byte_array path duration
               iterations w k Hd Hi Hloop) in Hrun.
    injection Hrun as <- <-.
    exists k. split; [|split; [|split]].
    + unfold finished. cbn [fs].
      rewrite (written_content _ path byte_array []); [reflexivity|].
      unfold loop_start, open_wb. cbn [fs files]. apply lookup_insert_eq.
    + intros other Hne. unfold finished. cbn [fs].
      rewrite written_other by exact Hne.
      unfold loop_start, open_wb. cbn [fs files].
      rewrite !lookup_insert_ne by congruence.
      rewrite ensure_dirs_files. reflexivity.
    + exact Hits.
    + unfold run_outcome. destruct (Qeq_bool _ 0); [left; reflexivity|].
      right. eexists. reflexivity.
  - exfalso. unfold write_byte_array_continuously in Hrun.
    rewrite validate_kwargs_accepts in Hrun by assumption.
    cbn [fs ticks draws] in Hrun. unfold getsize at 1 in Hrun.
    unfold open_wb at 1 in Hrun. cbn [files] in Hrun.
    rewrite lookup_insert_eq in Hrun.
    unfold with_fs, time_time in Hrun. cbn [fs ticks draws] in Hrun.
    unfold loop_start in Hloop. rewrite Hloop in Hrun. discriminate.
Qed.

Lemma write_byte_array_continuously_overwrites_witness :
  exists k : nat,
    files (fs (finished 2 DATA_FILEPATH [7; 8] (mkWorld (mkFS ∅ ∅) 0 0)))
      !! DATA_FILEPATH = Some (concat (repeat [7; 8] k))
    /\ (forall other, other <> DATA_FILEPATH ->
          files (fs (finished 2 DATA_FILEPATH [7; 8] (mkWorld (mkFS ∅ ∅) 0 0)))
            !! other = files (fs (mkWorld (mkFS ∅ ∅) 0 0)) !! other)
    /\ 2 <= Z.of_nat k
    /\ (run_outcome seconds_clock [7; 8] (mkWorld (mkFS ∅ ∅) 0 0) 2
        = Raise ZeroDivisionError
        \/ exists elapsed : Q,
             run_outcome seconds_clock [7; 8] (mkWorld (mkFS ∅ ∅) 0 0) 2
             = Return (Z.of_nat k * Z.of_nat (length [7; 8]), elapsed, Z.of_nat k)).
Proof.
  apply (write_byte_array_continuously_overwrites seconds_clock 3 [7; 8]
           DATA_FILEPATH 0 2 (mkWorld (mkFS ∅ ∅) 0 0)).
  - lra.
  - lia.
  - vm_compute. reflexivity.
Defined.

End ContinuousWriterMore.

(** * Further properties of ContiguousFiller *)

Module ContiguousFillerMore.
Import ContiguousFiller ContiguousFillerSpec ContiguousFillerMoreSpec
       ContiguousFillerFacts.

Lemma fills_refl (path : string) (d : Drive) : fills path d d.
Proof.
  exists []. rewrite app_nil_r. cbn [length]. repeat split; (lia || auto).
Qed.

Lemma fills_trans (path : string) (d1 d2 d3 : Drive) :
  fills path d1 d2 -> fills path d2 d3 -> fills path d1 d3.
Proof.
  intros (e1 & Hc1 & Hf1 & Hn1 & Ho1) (e2 & Hc2 & Hf2 & Hn2 & Ho2).
  exists (e1 ++ e2). rewrite Hc2, Hc1, <- app_assoc, length_app.
  repeat split; [lia | auto |].
  intros other Hne. rewrite Ho2, Ho1 by exact Hne. reflexivity.
Qed.

(** Counting an operation or recording an observation changes neither the
    file nor the free space. *)
Lemma fills_same (path : string) (d d' : Drive) :
  dfs d' = dfs d -> free d' = free d -> fills path d d'.
Proof.
  intros Hfs Hfree. exists []. unfold data_content.
  rewrite Hfs, Hfree, app_nil_r. cbn [length]. repeat split; (lia || auto).
Qed.

Lemma keeps_ret {A : Type} (path : string) (a : A) : keeps path (ret a).
Proof. intros d. apply fills_refl. Qed.

Lemma keeps_bind {A B : Type} (path : string) (m : M A) (k : A -> M B) :
  keeps path m -> (forall a, keeps path (k a)) -> keeps path (bind m k).
Proof.
  intros Hm Hk d. unfold bind. specialize (Hm d).
  destruct (m d) as [[[a | e] |] d1]; cbn [snd] in *; try exact Hm.
  eapply fills_trans; [exact Hm | apply Hk].
Qed.

Lemma keeps_attempt {A : Type} (faults : nat -> fault) (path : string) (k : M A) :
  keeps path k -> keeps path (attempt faults k).
Proof.
  intros Hk d. unfold attempt.
  destruct (faults (ops d)); cbn [snd].
  - eapply fills_trans; [|apply Hk]. apply fills_same; reflexivity.
  - apply fills_same; reflexivity.
  - apply fills_same; reflexivity.
Qed.

Lemma keeps_probe (faults : nat -> fault) (path : string) :
  keeps path (disk_usage_free faults).
Proof. apply keeps_attempt. intros d. apply fills_refl. Qed.

Lemma keeps_close (faults : nat -> fault) (path : string) :
  keeps path (close faults).
Proof. apply keeps_attempt, keeps_ret. Qed.

Lemma file_append_content (path : string) (data : list Z) (fs0 : FS) :
  default [] (files (file_append path data fs0) !! path)
  = default [] (files fs0 !! path) ++ data.
Proof.
  unfold file_append. cbn [files]. rewrite lookup_insert_eq. reflexivity.
Qed.

Lemma file_append_other (path other : string) (data : list Z) (fs0 : FS) :
  other <> path -> files (file_append path data fs0) !! other = files fs0 !! other.
Proof.
  intros Hne. unfold file_append. cbn [files]. apply lookup_insert_ne. congruence.
Qed.

Lemma keeps_open_ab (faults : nat -> fault) (path : string) :
  keeps path (open_ab faults path).
Proof.
  apply keeps_attempt. intros d. cbn [snd]. exists []. unfold data_content.
  cbn [dfs free length]. rewrite file_append_content.
  repeat split; [lia | auto |].
  intros other Hne. apply file_append_other. exact Hne.
Qed.

Lemma keeps_wb_write (faults : nat -> fault) (ph : phase) (path : string)
    (data : list Z) :
  keeps path (wb_write faults ph path data).
Proof.
  intros d. unfold wb_write.
  apply (keeps_bind path (emit (WriteAttempt ph (free d) data))).
  - intros d0. apply fills_same; reflexivity.
  - intros _. apply keeps_attempt. intros d1.
    destruct (Z.of_nat (length data) <=? free d1) eqn:Efit; cbn [snd].
    + apply Z.leb_le in Efit. exists data. unfold data_content.
      cbn [dfs free]. rewrite file_append_content.
      repeat split; [lia |].
      intros other Hne. apply file_append_other. exact Hne.
    + apply fills_refl.
Qed.

Lemma keeps_coarse_loop (faults : nat -> fault) (fuel : nat)
    (byte_array : list Z) (path : string) :
  keeps path (coarse_loop faults fuel byte_array path).
Proof.
  induction fuel as [|fuel IH]; cbn [coarse_loop].
  - intros d. apply fills_refl.
  - apply keeps_bind; [apply keeps_probe|]. intros free_now.
    destruct (free_now >? Z.of_nat (length byte_array)); [|apply keeps_ret].
    apply keeps_bind; [apply keeps_wb_write | intros _; exact IH].
Qed.

Lemma keeps_fine_loop (faults : nat -> fault) (byte_array : list Z)
    (path : string) (indices : list nat) :
  keeps path (fine_loop faults byte_array path indices).
Proof.
  induction indices as [|i rest IH]; cbn [fine_loop].
  - apply keeps_ret.
  - apply keeps_bind; [apply keeps_probe|]. intros free_now.
    destruct (free_now >? one_mb_bytes); [|apply keeps_ret].
    apply keeps_bind; [apply keeps_wb_write | intros _; exact IH].
Qed.

Lemma keeps_try_block (faults : nat -> fault) (fuel : nat)
    (byte_array : list Z) (path : string) :
  keeps path (try_block faults fuel byte_array path).
Proof.
  unfold try_block.
  repeat (apply keeps_bind; [|intros _]);
    first [ apply keeps_open_ab | apply keeps_close
          | apply keeps_coarse_loop | apply keeps_fine_loop ].
Qed.

(** X10.  A fill only appends to the data file and accounts for every byte:
    in every run, finished or not and whatever faults occur, the file
    afterwards is the file before followed by the bytes written, the free
    space has gone down by exactly their number, free space that was not
    negative is still not negative, and no other file is touched. *)
Theorem fill_appends_and_conserves_space (faults : nat -> fault) (fuel : nat)
    (byte_array : list Z) (path : string) (d : Drive) :
  exists extra : list Z,
    data_content path (snd (write_byte_array_contiguously faults fuel byte_array path d))
      = data_content path d ++ extra
    /\ free (snd (write_byte_array_contiguously faults fuel byte_array path d))
       = free d - Z.of_nat (length extra)
    /\ (0 <= free d ->
        0 <= free (snd (write_byte_array_contiguously faults fuel byte_array path d)))
    /\ (forall other, other <> path ->
          files (dfs (snd (write_byte_array_contiguously faults fuel byte_array path d)))
            !! other = files (dfs d) !! other).
Proof.
  change (fills path d
            (snd (write_byte_array_contiguously faults fuel byte_array path d))).
  unfold write_byte_array_contiguously.
  rewrite ValidationFacts.validate_kwargs_accepts
    by (unfold DURATION, ITERATIONS; (lra || lia)).
  match goal with |- context [try_block _ _ _ _ ?d0] =>
    assert (H0 : fills path d d0);
      [| pose proof (keeps_try_block faults fuel byte_array path d0) as Ht;
         destruct (try_block faults fuel byte_array path d0) as [[r |] d1] ]
  end.
  - exists []. unfold data_content. cbn [dfs free length].
    rewrite ValidationFacts.ensure_dirs_files, app_nil_r.
    repeat split; (lia || auto).
  - cbn [snd] in Ht.
    assert (Hfinal : forall d2, dfs d2 = dfs d1 -> free d2 = free d1 ->
              fills path d (snd ((disk_usage_free faults ;;; ret tt) d2))).
    { intros d2 Hfs Hfree. eapply fills_trans; [exact H0|].
      eapply fills_trans; [exact Ht|].
      eapply fills_trans; [apply fills_same; eassumption|].
      apply (keeps_bind path); [apply keeps_probe | intros _; apply keeps_ret]. }
    destruct r as [[] | e]; [| destruct (handled e)];
      try (apply Hfinal; reflexivity).
    cbn [snd]. eapply fills_trans; [exact H0|].
    eapply fills_trans; [exact Ht|]. apply fills_same; reflexivity.
  - cbn [snd] in *. eapply fills_trans; eassumption.
Qed.

(** Without faults the coarse loop of a non-empty buffer ends normally with
    at most one buffer length free. *)
Lemma coarse_loop_no_faults (byte_array : list Z) (path : string) :
  (0 < length byte_array)%nat ->
  forall (fuel : nat) (d : Drive),
    (Z.to_nat (free d) < fuel)%nat ->
    exists d',
      coarse_loop no_faults fuel byte_array path d = (Some (Return tt), d')
      /\ free d' <= Z.of_nat (length byte_array)
      /\ free d' <= free d.
Proof.
  intros Hlen. induction fuel as [|fuel IH]; intros d Hfuel; [lia|].
  cbn [coarse_loop]. step_op. unfold no_faults at 1.
  destruct (free d >? Z.of_nat (length byte_array)) eqn:Efree.
  - rewrite Z.gtb_ltb in Efree. apply Z.ltb_lt in Efree.
    step_op. unfold no_faults at 1.
    replace (Z.of_nat (length byte_array) <=? free d) with true
      by (symmetry; apply Z.leb_le; lia).
    match goal with |- context [coarse_loop _ _ _ _ ?d2] =>
      destruct (IH d2) as (d' & Hrun & Hle & Hdown) end.
    { cbn [free]. lia. }
    cbn [free] in Hdown. exists d'. split; [exact Hrun|]. split; lia.
  - rewrite Z.gtb_ltb in Efree. apply Z.ltb_ge in Efree.
    eexists. split; [reflexivity|]. cbn [free]. split; [exact Efree | lia].
Qed.

(** Without faults the fine loop ends normally; it has either stopped at a
    probe showing at most 1 MiB free or written all the slices it was given. *)
Lemma fine_loop_no_faults (byte_array : list Z) (path : string) (n : nat) :
  forall (first : nat) (d : Drive),
    Z.of_nat (first + n) * one_mb_bytes <= Z.of_nat (length byte_array) ->
    exists d',
      fine_loop no_faults byte_array path (seq first n) d = (Some (Return tt), d')
      /\ free d' <= free d
      /\ (free d' <= one_mb_bytes \/ free d' = free d - Z.of_nat n * one_mb_bytes).
Proof.
  assert (Hmb : 0 < one_mb_bytes) by (unfold one_mb_bytes; lia).
  induction n as [|n IH]; intros first d Hlen.
  - eexists. split; [reflexivity|]. split; [lia | right; lia].
  - cbn [seq fine_loop]. step_op. unfold no_faults at 1.
    destruct (free d >? one_mb_bytes) eqn:Efree.
    + rewrite Z.gtb_ltb in Efree. apply Z.ltb_lt in Efree.
      step_op. unfold no_faults at 1.
      rewrite (slice_length byte_array first) by nia.
      replace (one_mb_bytes <=? free d) with true by (symmetry; apply Z.leb_le; lia).
      match goal with |- context [fine_loop _ _ _ _ ?d2] =>
        destruct (IH (S first) d2) as (d' & Hrun & Hle & Hend) end.
      { replace (S first + n)%nat with (first + S n)%nat by lia. exact Hlen. }
      cbn [free] in *. exists d'. split; [exact Hrun|]. split; [lia|].
      destruct Hend as [H | H]; [left; exact H | right; lia].
    + rewrite Z.gtb_ltb in Efree. apply Z.ltb_ge in Efree.
      eexists. split; [reflexivity|]. cbn [free]. split; [lia | left; exact Efree].
Qed.

(** The whole call without faults: open, coarse loop, close, open, fine
    loop, close, and the last probe all succeed. *)
Lemma undisturbed_fill_run (byte_array : list Z) (path : string) (d : Drive) :
  (0 < length byte_array)%nat ->
  exists d' : Drive,
    write_byte_array_contiguously no_faults (S (Z.to_nat (free d))) byte_array path d
      = (Some (Return tt), d')
    /\ free d' <= free d
    /\ free d' <= Z.of_nat (length byte_array)
    /\ (free d' <= one_mb_bytes
        \/ free d' <= Z.of_nat (length byte_array)
                      - Z.of_nat (length byte_array) / one_mb_bytes * one_mb_bytes).
Proof.
  intros Hlen.
  unfold write_byte_array_contiguously.
  rewrite ValidationFacts.validate_kwargs_accepts
    by (unfold DURATION, ITERATIONS; (lra || lia)).
  unfold try_block.
  unfold bind at 1. unfold open_ab at 1, attempt at 1, no_faults at 1.
  cbn [dfs free ops trace].
  unfold bind at 1.
  match goal with |- context [coarse_loop _ ?fuel _ _ ?d1] =>
    destruct (coarse_loop_no_faults byte_array path Hlen fuel d1)
      as (d2 & -> & Hd2 & Hdown); [cbn [free]; lia|]
  end.
  cbn [free] in Hdown.
  unfold bind at 1. unfold close at 1, attempt at 1, no_faults at 1, ret at 1.
  unfold bind at 1. unfold open_ab at 1, attempt at 1, no_faults at 1.
  cbn [dfs free ops trace].
  unfold bind at 1. unfold fine_indices.
  match goal with |- context [fine_loop _ _ _ (seq 0 ?n) ?d4] =>
    destruct (fine_loop_no_faults byte_array path n 0 d4)
      as (d5 & -> & Hle & Hend); [apply fine_indices_bound|]
  end.
  cbn [free] in *.
  step_op. unfold no_faults. eexists. split; [reflexivity|]. cbn [free].
  assert (Hmb : 0 < one_mb_bytes) by (unfold one_mb_bytes; lia).
  split; [lia|]. split; [lia|].
  destruct Hend as [H | H]; [left; exact H | right].
  unfold range_len in H.
  rewrite Z2Nat.id in H by (apply Z.div_pos; lia). lia.
Qed.

(** X11.  A fill of a non-empty buffer that no fault disturbs returns
    normally and leaves at most 1 MiB, and at most one buffer length, of
    free space. *)
Theorem undisturbed_fill_leaves_at_most_one_mb (byte_array : list Z)
    (path : string) (d : Drive) :
  (0 < length byte_array)%nat ->
  exists (fuel : nat) (d' : Drive),
    write_byte_array_contiguously no_faults fuel byte_array path d
      = (Some (Return tt), d')
    /\ free d' <= one_mb_bytes
    /\ free d' <= Z.of_nat (length byte_array)
    /\ free d' <= free d.
Proof.
  intros Hlen.
  destruct (undisturbed_fill_run byte_array path d Hlen)
    as (d' & Hrun & Hdown & Hbuf & Hend).
  exists (S (Z.to_nat (free d))), d'. split; [exact Hrun|].
  split; [|split; assumption].
  destruct Hend as [H | H]; [exact H|].
  assert (Hmb : 0 < one_mb_bytes) by (unfold one_mb_bytes; lia).
  pose proof (Z.mod_pos_bound (Z.of_nat (length byte_array)) one_mb_bytes Hmb) as Hmod.
  pose proof (Z.div_mod (Z.of_nat (length byte_array)) one_mb_bytes) as Hdm.
  lia.
Qed.

Lemma undisturbed_fill_leaves_at_most_one_mb_witness :
  exists (fuel : nat) (d' : Drive),
    write_byte_array_contiguously no_faults fuel [1; 2; 3] DATA_FILEPATH
                                  (mkDrive (mkFS ∅ ∅) 10 0 [])
      = (Some (Return tt), d')
    /\ free d' <= one_mb_bytes
    /\ free d' <= Z.of_nat (length [1; 2; 3])
    /\ free d' <= free (mkDrive (mkFS ∅ ∅) 10 0 []).
Proof.
  apply (undisturbed_fill_leaves_at_most_one_mb [1; 2; 3] DATA_FILEPATH
           (mkDrive (mkFS ∅ ∅) 10 0 [])).
  simpl. lia.
Defined.

(** X12.  An empty buffer never fills anything: with free space on the drive
    and no fault, the coarse loop writes nothing forever, so the call does
    not end, whatever the fuel, and the free space stays what it was. *)
Theorem empty_buffer_fill_never_ends (path : string) (d : Drive) (fuel : nat) :
  0 < free d ->
  fst (write_byte_array_contiguously no_faults fuel [] path d) = None
  /\ free (snd (write_byte_array_contiguously no_faults fuel [] path d)) = free d.
Proof.
  intros Hfree.
  assert (Hloop : forall fuel' d1, 0 < free d1 ->
            exists d2, coarse_loop no_faults fuel' [] path d1 = (None, d2)
                       /\ free d2 = free d1).
  { induction fuel' as [|fuel' IH]; intros d1 H1; [eexists; split; reflexivity|].
    cbn [coarse_loop]. step_op. unfold no_faults at 1. cbn [length].
    replace (free d1 >? Z.of_nat 0) with true
      by (symmetry; rewrite Z.gtb_ltb; apply Z.ltb_lt; lia).
    step_op. unfold no_faults at 1. cbn [length].
    replace (Z.of_nat 0 <=? free d1) with true by (symmetry; apply Z.leb_le; lia).
    match goal with |- context [coarse_loop _ _ _ _ ?d2] =>
      destruct (IH d2) as (d3 & Hrun & Hf) end.
    { cbn [free]. lia. }
    cbn [free] in Hf. exists d3. split; [exact Hrun | lia]. }
  assert (Hrun : exists d',
            write_byte_array_contiguously no_faults fuel [] path d = (None, d')
            /\ free d' = free d).
  { unfold write_byte_array_contiguously.
    rewrite ValidationFacts.validate_kwargs_accepts
      by (unfold DURATION, ITERATIONS; (lra || lia)).
    unfold try_block.
    unfold bind at 1. unfold open_ab at 1, attempt at 1, no_faults at 1.
    cbn [dfs free ops trace].
    unfold bind at 1.
    match goal with |- context [coarse_loop _ _ _ _ ?d1] =>
      destruct (Hloop fuel d1) as (d2 & -> & Hf); [cbn [free]; exact Hfree|]
    end.
    cbn [free] in Hf. exists d2. split; [reflexivity | exact Hf]. }
  destruct Hrun as (d' & -> & Hf). split; [reflexivity | exact Hf].
Qed.

Lemma empty_buffer_fill_never_ends_witness :
  fst (write_byte_array_contiguously no_faults 50 [] DATA_FILEPATH
         (mkDrive (mkFS ∅ ∅) 4096 0 [])) = None
  /\ free (snd (write_byte_array_contiguously no_faults 50 [] DATA_FILEPATH
                  (mkDrive (mkFS ∅ ∅) 4096 0 [])))
     = free (mkDrive (mkFS ∅ ∅) 4096 0 []).
Proof.
  apply (empty_buffer_fill_never_ends DATA_FILEPATH (mkDrive (mkFS ∅ ∅) 4096 0 []) 50).
  simpl. lia.
Defined.

End ContiguousFillerMore.

(** * Properties of UsageMonitor *)

Module UsageMonitorFacts.
Import UsageMonitor UsageMonitorSpec.

Lemma naps_cons (answer : bool) (answers : list bool) :
  naps (answer :: answers) = Sleep :: Asked answer :: naps answers.
Proof. reflexivity. Qed.

(** The inner loop either is cut at the first nap that sees the event set, or
    runs all its rounds seeing it unset. *)
Lemma sleep_loop_shape (is_set : nat -> bool) (rounds : nat) :
  forall m : Monitor,
    (exists j : nat,
       (j < rounds)%nat
       /\ sleep_loop is_set rounds m
          = mkMonitor (queries m + j + 1) (probes m)
                      (actions m ++ naps (repeat false j ++ [true]))
       /\ is_set (queries m + j)%nat = true
       /\ forall i, (i < j)%nat -> is_set (queries m + i)%nat = false)
    \/ (sleep_loop is_set rounds m
        = mkMonitor (queries m + rounds) (probes m)
                    (actions m ++ naps (repeat false rounds))
        /\ forall i, (i < rounds)%nat -> is_set (queries m + i)%nat = false).
Proof.
  induction rounds as [|rounds IH]; intros m.
  - right. split.
    + destruct m as [q pr acts]. unfold naps. cbn.
      rewrite Nat.add_0_r, app_nil_r. reflexivity.
    + intros i Hi. lia.
  - cbn [sleep_loop event_is_set act queries probes actions].
    destruct (is_set (queries m)) eqn:Eset.
    + left. exists 0%nat. split; [lia|]. split; [|split].
      * cbn [repeat app]. rewrite naps_cons. cbn [naps map concat].
        rewrite <- app_assoc. cbn [app]. f_equal. lia.
      * rewrite Nat.add_0_r. exact Eset.
      * intros i Hi. lia.
    + match goal with |- context [sleep_loop _ _ ?m1] =>
        destruct (IH m1) as [(j & Hj & Hrun & Hset & Hbefore) | (Hrun & Hall)] end;
        cbn [queries probes actions] in *.
      * left. exists (S j). split; [lia|]. split; [|split].
        -- rewrite Hrun. cbn [repeat app]. rewrite naps_cons.
           rewrite <- !app_assoc. cbn [app]. f_equal. lia.
        -- replace (queries m + S j)%nat with (S (queries m) + j)%nat by lia.
           exact Hset.
        -- intros [|i] Hi; [rewrite Nat.add_0_r; exact Eset|].
           replace (queries m + S i)%nat with (S (queries m) + i)%nat by lia.
           apply Hbefore. lia.
      * right. split.
        -- rewrite Hrun. cbn [repeat]. rewrite naps_cons.
           rewrite <- !app_assoc. cbn [app]. f_equal. lia.
        -- intros [|i] Hi; [rewrite Nat.add_0_r; exact Eset|].
           replace (queries m + S i)%nat with (S (queries m) + i)%nat by lia.
           apply Hall. lia.
Qed.

Lemma disk_usage_monitor_step (is_set : nat -> bool) (usage : nat -> result Q)
    (fuel : nat) (m : Monitor) :
  disk_usage_monitor is_set usage (S fuel) m
  = let m1 := mkMonitor (S (queries m)) (probes m)
                        (actions m ++ [Asked (is_set (queries m))]) in
    if is_set (queries m) then Some (Return tt, m1)
    else
      let m2 := mkMonitor (queries m1) (S (probes m1)) (actions m1) in
      match usage (probes m) with
      | Raise e => Some (Raise e, m2)
      | Return percent =>
          disk_usage_monitor is_set usage fuel
            (sleep_loop is_set 100 (act (Log percent) m2))
      end.
Proof. reflexivity. Qed.

(** The shape of every run that ends, when the event is never cleared: full
    rounds, then either a last look that sees the event set (possibly right
    after a round cut short) or a probe that fails. *)
Lemma monitor_shape (is_set : nat -> bool) (usage : nat -> result Q) :
  settled is_set ->
  forall (fuel : nat) (m m' : Monitor) (r : result unit),
    disk_usage_monitor is_set usage fuel m = Some (r, m') ->
    exists (percents : list Q) (last : list action),
      actions m' = actions m ++ concat (map full_round percents) ++ last
      /\ (forall i, (i < length percents)%nat ->
            usage (probes m + i)%nat = Return (nth i percents 0%Q))
      /\ match r with
         | Return _ =>
             (last = [Asked true]
              \/ exists percent j,
                   (j < 100)%nat /\ last = cut_round percent j ++ [Asked true]
                   /\ usage (probes m + length percents)%nat = Return percent)
         | Raise e =>
             last = [Asked false]
             /\ usage (probes m + length percents)%nat = Raise e
         end.
Proof.
  intros Hsettled. induction fuel as [|fuel IH]; intros m m' r Hrun; [discriminate|].
  cbn [disk_usage_monitor event_is_set queries probes actions] in Hrun.
  destruct (is_set (queries m)) eqn:Eset.
  - injection Hrun as <- <-. exists [], [Asked true]. cbn [map concat app length actions].
    split; [reflexivity|]. split; [intros i Hi; lia | left; reflexivity].
  - destruct (usage (probes m)) as [percent | e] eqn:Eusage.
    + match type of Hrun with context [sleep_loop _ _ ?m2] =>
        destruct (sleep_loop_shape is_set 100 m2)
          as [(j & Hj & Hloop & Hset & _) | (Hloop & _)] end;
        cbn [act queries probes actions] in Hloop; rewrite Hloop in Hrun.
      * (* the round is cut: the next look sees the event set *)
        destruct fuel as [|fuel]; [discriminate|].
        cbn [disk_usage_monitor event_is_set queries probes actions] in Hrun.
        cbn [act queries] in Hset.
        rewrite (Hsettled (S (queries m) + j)%nat (S (queries m) + j + 1)%nat)
          in Hrun by (lia || exact Hset).
        injection Hrun as <- <-. exists [], (cut_round percent j ++ [Asked true]).
        cbn [map concat app length actions]. split; [|split].
        -- unfold cut_round. rewrite <- !app_assoc. reflexivity.
        -- intros i Hi. lia.
        -- right. exists percent, j. rewrite Nat.add_0_r. auto.
      * apply IH in Hrun as (percents & last & Hacts & Husage & Hlast).
        cbn [queries probes actions] in *.
        exists (percent :: percents), last. split; [|split].
        -- rewrite Hacts. cbn [map concat]. unfold full_round.
           rewrite <- !app_assoc. reflexivity.
        -- intros [|i] Hi; cbn [nth length] in *.
           ++ rewrite Nat.add_0_r. exact Eusage.
           ++ replace (probes m + S i)%nat with (S (probes m) + i)%nat by lia.
              apply Husage. lia.
        -- cbn [length].
           replace (probes m + S (length percents))%nat
             with (S (probes m) + length percents)%nat by lia.
           exact Hlast.
    + injection Hrun as <- <-. exists [], [Asked false].
      cbn [map concat app length actions]. split; [reflexivity|].
      split; [intros i Hi; lia|]. rewrite Nat.add_0_r. auto.
Qed.

(** X13.  While the event is unset the monitor logs the usage once and then
    naps a hundred times, looking at the event after each nap; a run that
    returns consists of such rounds, at most one round cut short at the
    first nap that sees the event set, and a last look that sees it set:
    nothing is logged and no nap is taken once the event has been seen set. *)
Theorem monitor_rounds_until_event_seen (is_set : nat -> bool)
    (usage : nat -> result Q) (fuel : nat) (m m' : Monitor) :
  settled is_set ->
  disk_usage_monitor is_set usage fuel m = Some (Return tt, m') ->
  exists (percents : list Q) (last : list action),
    actions m' = actions m ++ concat (map full_round percents) ++ last
                           ++ [Asked true]
    /\ (last = [] \/ exists percent j, (j < 100)%nat /\ last = cut_round percent j)
    /\ (forall i, (i < length percents)%nat ->
          usage (probes m + i)%nat = Return (nth i percents 0%Q)).
Proof.
  intros Hsettled Hrun.
  destruct (monitor_shape is_set usage Hsettled fuel m m' (Return tt) Hrun)
    as (percents & last & Hacts & Husage & Hlast).
  destruct Hlast as [-> | (percent & j & Hj & -> & _)].
  - exists percents, []. split; [exact Hacts|]. split; [left; reflexivity | exact Husage].
  - exists percents, (cut_round percent j). split; [exact Hacts|].
    split; [right; eauto | exact Husage].
Qed.

Lemma monitor_rounds_until_event_seen_witness :
  exists (percents : list Q) (last : list action),
    actions (mkMonitor 5 1 [Asked false; Log 42; Sleep; Asked false; Sleep;
                            Asked false; Sleep; Asked true; Asked true])
    = actions (mkMonitor 0 0 []) ++ concat (map full_round percents) ++ last
                                 ++ [Asked true]
    /\ (last = [] \/ exists percent j, (j < 100)%nat /\ last = cut_round percent j)
    /\ (forall i, (i < length percents)%nat ->
          (fun _ : nat => Return 42%Q) (probes (mkMonitor 0 0 []) + i)%nat
          = Return (nth i percents 0%Q)).
Proof.
  apply (monitor_rounds_until_event_seen (fun n => (3 <=? n)%nat)
           (fun _ => Return 42%Q) 3 (mkMonitor 0 0 [])).
  - intros i j Hij Hi. apply Nat.leb_le in Hi. apply Nat.leb_le. lia.
  - vm_compute. reflexivity.
Defined.

(** X14.  An error of the probe is not caught: it ends the thread.  A run
    that ends with an exception consists of full rounds followed by a look
    that sees the event unset and the probe that raised it; that probe is
    not logged. *)
Theorem monitor_dies_on_probe_error (is_set : nat -> bool)
    (usage : nat -> result Q) (fuel : nat) (m m' : Monitor) (e : exn) :
  settled is_set ->
  disk_usage_monitor is_set usage fuel m = Some (Raise e, m') ->
  exists percents : list Q,
    actions m' = actions m ++ concat (map full_round percents) ++ [Asked false]
    /\ usage (probes m + length percents)%nat = Raise e
    /\ (forall i, (i < length percents)%nat ->
          usage (probes m + i)%nat = Return (nth i percents 0%Q)).
Proof.
  intros Hsettled Hrun.
  destruct (monitor_shape is_set usage Hsettled fuel m m' (Raise e) Hrun)
    as (percents & last & Hacts & Husage & -> & Hraise).
  exists percents. auto.
Qed.

Lemma monitor_dies_on_probe_error_witness :
  exists percents : list Q,
    actions (mkMonitor 1 1 [Asked false])
    = actions (mkMonitor 0 0 []) ++ concat (map full_round percents) ++ [Asked false]
    /\ (fun _ : nat => @Raise Q OSError) (probes (mkMonitor 0 0 []) + length percents)%nat
       = Raise OSError
    /\ (forall i, (i < length percents)%nat ->
          (fun _ : nat => @Raise Q OSError) (probes (mkMonitor 0 0 []) + i)%nat
          = Return (nth i percents 0%Q)).
Proof.
  apply (monitor_dies_on_probe_error (fun _ => false) (fun _ => Raise OSError) 1
           (mkMonitor 0 0 [])).
  - intros i j _ Hi. discriminate Hi.
  - vm_compute. reflexivity.
Defined.

(** X15.  Once the event is set the monitor ends: if the [q]-th look (or an
    earlier one) answers that the event is set, the run ends after at most
    two looks beyond the later of [q] and the looks already taken. *)
Theorem monitor_ends_after_event_set (is_set : nat -> bool)
    (usage : nat -> result Q) (q : nat) (m : Monitor) :
  settled is_set -> is_set q = true ->
  exists (fuel : nat) (r : result unit) (m' : Monitor),
    disk_usage_monitor is_set usage fuel m = Some (r, m')
    /\ (queries m' <= Nat.max q (queries m) + 2)%nat.
Proof.
  intros Hsettled Hq.
  assert (Hgen : forall (n : nat) (m0 : Monitor),
            (q < queries m0 + n)%nat ->
            exists r m',
              disk_usage_monitor is_set usage (S n) m0 = Some (r, m')
              /\ (queries m' <= Nat.max q (queries m0) + 2)%nat).
  { induction n as [|n IH]; intros m0 Hn.
    - rewrite disk_usage_monitor_step. cbn zeta.
      rewrite (Hsettled q (queries m0)) by (lia || exact Hq).
      eexists _, _. split; [reflexivity|]. cbn [queries]. lia.
    - rewrite disk_usage_monitor_step. cbn zeta. cbn [queries probes actions].
      destruct (is_set (queries m0)) eqn:Eset.
      + eexists _, _. split; [reflexivity|]. cbn [queries]. lia.
      + assert (Hlow : (queries m0 < q)%nat).
        { destruct (Nat.lt_ge_cases (queries m0) q) as [H | H]; [exact H|].
          rewrite (Hsettled q (queries m0) H Hq) in Eset. discriminate. }
        destruct (usage (probes m0)) as [percent | e].
        * match goal with |- context [sleep_loop _ _ ?m2] =>
            destruct (sleep_loop_shape is_set 100 m2)
              as [(j & Hj & Hloop & Hset & Hbefore) | (Hloop & Hall)] end;
            cbn [act queries probes actions] in *; rewrite Hloop.
          -- assert (Hq' : (S (queries m0) + j <= q)%nat).
             { destruct (Nat.lt_ge_cases q (S (queries m0) + j)) as [H | H]; [|exact H].
               exfalso. specialize (Hbefore (q - S (queries m0))%nat).
               replace (S (queries m0) + (q - S (queries m0)))%nat with q in Hbefore
                 by lia.
               rewrite Hbefore in Hq by lia. discriminate. }
             rewrite disk_usage_monitor_step. cbn zeta. cbn [queries probes actions].
             rewrite (Hsettled (S (queries m0) + j)%nat (S (queries m0) + j + 1)%nat)
               by (lia || exact Hset).
             eexists _, _. split; [reflexivity|]. cbn [queries]. lia.
          -- assert (Hq' : (S (queries m0) + 100 <= q)%nat).
             { destruct (Nat.lt_ge_cases q (S (queries m0) + 100)) as [H | H]; [|exact H].
               exfalso. specialize (Hall (q - S (queries m0))%nat).
               replace (S (queries m0) + (q - S (queries m0)))%nat with q in Hall
                 by lia.
               rewrite Hall in Hq by lia. discriminate. }
             match goal with |- context [disk_usage_monitor _ _ _ ?m3] =>
               destruct (IH m3) as (r & m' & Hrun & Hbound) end.
             { cbn [queries]. lia. }
             cbn [queries] in Hbound. exists r, m'. split; [exact Hrun | lia].
        * eexists _, _. split; [reflexivity|]. cbn [queries]. lia. }
  destruct (Hgen (S q) m) as (r & m' & Hrun & Hbound); [lia|].
  exists (S (S q)), r, m'. split; assumption.
Qed.

Lemma monitor_ends_after_event_set_witness :
  exists (fuel : nat) (r : result unit) (m' : Monitor),
    disk_usage_monitor (fun n => (3 <=? n)%nat) (fun _ => Return 42%Q) fuel
                       (mkMonitor 0 0 []) = Some (r, m')
    /\ (queries m' <= Nat.max 3 (queries (mkMonitor 0 0 [])) + 2)%nat.
Proof.
  apply (monitor_ends_after_event_set (fun n => (3 <=? n)%nat)
           (fun _ => Return 42%Q) 3 (mkMonitor 0 0 [])).
  - intros i j Hij Hi. apply Nat.leb_le in Hi. apply Nat.leb_le. lia.
  - reflexivity.
Defined.

End UsageMonitorFacts.

(** * Further properties of ThroughputBenchmark *)

Module BenchmarkMore.
Import Benchmark BenchmarkSpec BenchmarkMoreSpec ContinuousWriter
       ContinuousWriterSpec ContinuousWriterFacts BenchmarkFacts.

Lemma killobytes_buffer_length (rand : nat -> Byte.byte) (count fill : Z)
    (s s' : nat) (buffer : list Z) :
  0 <= count ->
  BufferFactory.create_bytearray_killobytes rand count fill s = (Return buffer, s') ->
  Z.of_nat (length buffer) = count * 1024.
Proof.
  intros Hc. unfold BufferFactory.create_bytearray_killobytes.
  destruct (BufferFactory.create_bytearray rand 1024 fill s) as [[block | e] s1] eqn:E;
    [|discriminate].
  intros [= <- <-].
  rewrite BufferFactoryFacts.extend_loop_length.
  assert (Hblock : length block = 1024%nat).
  { unfold BufferFactory.create_bytearray in E.
    destruct (fill =? FILL);
      apply (f_equal fst) in E; cbn [fst] in E;
      apply BufferFactoryMore.bytearray_of_inv in E as [-> _];
      rewrite length_map, length_seq; reflexivity. }
  rewrite Hblock. unfold range_len. lia.
Qed.

(** A measurement with the default bounds returns at least [ITERATIONS]
    iterations over at least [DURATION] seconds. *)
Lemma default_measurement_bounds (clock : nat -> Q) (byte_array : list Z)
    (path : string) (w : World) :
  monotone clock -> unbounded clock ->
  exists (fuel k : nat) (elapsed : Q),
    (forall fuel', (fuel <= fuel')%nat ->
       write_byte_array_continuously clock fuel' byte_array path DURATION
                                     ITERATIONS w
       = Some (Return (Z.of_nat k * Z.of_nat (length byte_array), elapsed,
                       Z.of_nat k),
               finished k path byte_array w))
    /\ Qeq_bool elapsed 0 = false
    /\ ITERATIONS <= Z.of_nat k
    /\ (DURATION <= elapsed)%Q.
Proof.
  intros Hmono Hunb.
  destruct (write_byte_array_continuously_terminates clock byte_array path
              DURATION ITERATIONS w) as (fuel & k & Hrun & Hits & Hexit & _);
    try assumption; [unfold DURATION; lra | unfold ITERATIONS; lia |].
  assert (Hlast : (clock (ticks w + 1 + k)%nat <= clock (ticks w + k + 2)%nat)%Q)
    by (apply Hmono; lia).
  assert (Hlong : (DURATION <= clock (ticks w + k + 2)%nat - clock (ticks w))%Q)
    by lra.
  assert (Hne : Qeq_bool (clock (ticks w + k + 2)%nat - clock (ticks w)) 0 = false).
  { destruct (Qeq_bool _ 0) eqn:E; [|reflexivity].
    apply Qeq_bool_iff in E. unfold DURATION in Hlong. lra. }
  exists fuel, k, (clock (ticks w + k + 2)%nat - clock (ticks w))%Q.
  split; [|repeat split; assumption].
  intros fuel' Hle. rewrite (Hrun fuel' Hle). unfold run_outcome.
  rewrite Hne. reflexivity.
Qed.

Lemma rate_positive (bytes : Z) (elapsed : Q) :
  0 < bytes -> (0 < elapsed)%Q ->
  (0 < inject_Z bytes / inject_Z (1024 ^ 2) / elapsed)%Q.
Proof.
  intros Hb He.
  apply Qlt_shift_div_l; [exact He|]. rewrite Qmult_0_l.
  apply Qlt_shift_div_l; [reflexivity|]. rewrite Qmult_0_l.
  change 0%Q with (inject_Z 0). rewrite <- Zlt_Qlt. exact Hb.
Qed.

Lemma sweep_invariant_step (acc : Sweep) (byte_array : list Z)
    (killobytes : Z) (row : Row) :
  sweep_invariant acc ->
  kb row = killobytes -> (0 < rate row)%Q ->
  Z.of_nat (length byte_array) = killobytes * 1024 ->
  sweep_invariant
    (if Qlt_bool (sweetspot_rate acc) (rate row)
     then mkSweep byte_array killobytes (rate row) (rows acc ++ [row])
     else mkSweep (sweetspot_bytearray acc) (sweetspot_killobytes acc)
                  (sweetspot_rate acc) (rows acc ++ [row])).
Proof.
  intros Hinv Hkb Hpos Hlen. right.
  destruct (Qlt_bool (sweetspot_rate acc) (rate row)) eqn:Elt.
  - apply ValidationFacts.Qlt_bool_iff in Elt.
    exists row. cbn [rows sweetspot_rate sweetspot_killobytes sweetspot_bytearray].
    split; [|repeat split; congruence].
    exists (rows acc), []. split; [reflexivity|]. split; [|constructor].
    destruct Hinv as [[-> _] | (r0 & (before & after & Hrows & Hb & Ha) & Hr & _)];
      [constructor|].
    rewrite Hrows. rewrite Hr in Elt.
    apply Forall_app. split; [|constructor].
    + eapply Forall_impl; [exact Hb|]. intros b Hlt. cbn in Hlt. lra.
    + exact Elt.
    + eapply Forall_impl; [exact Ha|]. intros a Hle. cbn in Hle. lra.
  - apply ValidationFacts.Qlt_bool_false_iff in Elt.
    destruct Hinv as [[_ Hzero] | (r0 & (before & after & Hrows & Hb & Ha) & Hr & Hk & Hl)];
      [lra|].
    exists r0. cbn [rows sweetspot_rate sweetspot_killobytes sweetspot_bytearray].
    split; [|repeat split; assumption].
    exists before, (after ++ [row]). split; [|split; [exact Hb|]].
    + rewrite Hrows, <- app_assoc. reflexivity.
    + apply Forall_app. split; [exact Ha|]. constructor; [|constructor].
      rewrite <- Hr. exact Elt.
Qed.

(** The sweep, row by row: every new row is a full measurement of its
    candidate and the accumulator keeps its invariant. *)
Lemma sweep_measures (clock : nat -> Q) (rand : nat -> Byte.byte)
    (path : string) (fill : Z) (candidates : list Z) :
  monotone clock -> unbounded clock -> valid_fill fill ->
  Forall (fun killobytes => 0 < killobytes) candidates ->
  forall (acc : Sweep) (w : World),
    sweep_invariant acc ->
    exists (fuel : nat) (acc' : Sweep) (w' : World) (new : list Row),
      (forall fuel', (fuel <= fuel')%nat ->
         sweep clock rand fuel' candidates path fill acc w = Some (Return acc', w'))
      /\ rows acc' = rows acc ++ new
      /\ map kb new = candidates
      /\ Forall measured new
      /\ sweep_invariant acc'.
Proof.
  intros Hmono Hunb Hfill.
  induction candidates as [|killobytes rest IH]; intros Hpos acc w Hinv.
  - exists 0%nat, acc, w, []. rewrite app_nil_r.
    split; [reflexivity|]. split; [reflexivity|]. split; [reflexivity|].
    split; [constructor | exact Hinv].
  - inversion Hpos as [|? ? Hk Hrest]; subst.
    destruct (create_bytearray_killobytes_returns rand killobytes fill (draws w)
                Hfill) as (byte_array & s' & Hbuf).
    pose proof (killobytes_buffer_length rand killobytes fill (draws w) s'
                  byte_array ltac:(lia) Hbuf) as Hlen.
    destruct (default_measurement_bounds clock byte_array path
                (mkWorld (fs w) (ticks w) s') Hmono Hunb)
      as (fuel1 & k & secs & Hrun & Hne & Hits & Hlong).
    set (row := mkRow killobytes (inject_Z killobytes / 1024)%Q
                  (inject_Z (Z.of_nat k * Z.of_nat (length byte_array))
                   / inject_Z (1024 ^ 2) / secs)%Q
                  secs (Z.of_nat k)).
    assert (Hstep : forall fuel', (fuel1 <= fuel')%nat ->
               sweep clock rand fuel' (killobytes :: rest) path fill acc w
               = sweep clock rand fuel' rest path fill
                   (if Qlt_bool (sweetspot_rate acc) (rate row)
                    then mkSweep byte_array killobytes (rate row) (rows acc ++ [row])
                    else mkSweep (sweetspot_bytearray acc) (sweetspot_killobytes acc)
                                 (sweetspot_rate acc) (rows acc ++ [row]))
                   (finished k path byte_array (mkWorld (fs w) (ticks w) s'))).
    { intros fuel' Hle. cbn [sweep]. rewrite Hbuf, (Hrun fuel' Hle), Hne.
      reflexivity. }
    assert (Hrate : (0 < rate row)%Q).
    { cbn [rate row]. apply rate_positive.
      - unfold ITERATIONS in Hits. nia.
      - unfold DURATION in Hlong. lra. }
    pose proof (sweep_invariant_step acc byte_array killobytes row Hinv eq_refl
                  Hrate Hlen) as Hinv1.
    destruct (IH Hrest _ (finished k path byte_array (mkWorld (fs w) (ticks w) s'))
                Hinv1) as (fuel2 & acc' & w' & new & Hrestrun & Hrows & Hkbs & Hmeas & Hinv').
    exists (Nat.max fuel1 fuel2), acc', w', (row :: new). split; [|split; [|split; [|split]]].
    + intros fuel' Hle. rewrite Hstep by lia. apply Hrestrun. lia.
    + rewrite Hrows. destruct (Qlt_bool _ _); cbn [rows];
        rewrite <- app_assoc; reflexivity.
    + cbn [map kb row]. rewrite Hkbs. reflexivity.
    + constructor; [|exact Hmeas].
      unfold measured. cbn [iteration elapsed mb kb rate row].
      split; [exact Hits|]. split; [exact Hlong|]. split; [reflexivity|].
      rewrite Hlen. reflexivity.
    + exact Hinv'.
Qed.

Lemma sorted_killobytes_positive :
  Forall (fun killobytes => 0 < killobytes) (sorted killobytes_list).
Proof.
  rewrite sorted_killobytes_list_value. repeat (constructor; [lia|]). constructor.
Qed.

(** The benchmark as a whole, for an admissible fill. *)
Lemma benchmark_run (clock : nat -> Q) (rand : nat -> Byte.byte)
    (to_csv : list Row -> list Z) (data_filepath perf_filepath : string)
    (fill : Z) (w : World) :
  monotone clock -> unbounded clock -> valid_fill fill ->
  exists (fuel : nat) (acc : Sweep) (w' : World),
    (forall fuel', (fuel <= fuel')%nat ->
       create_byte_array_high_throughput clock rand to_csv fuel' data_filepath
                                         perf_filepath fill w
       = Some (Return (sweetspot_bytearray acc), w'))
    /\ files (fs w') !! perf_filepath = Some (to_csv (rows acc))
    /\ map kb (rows acc) = sorted killobytes_list
    /\ Forall measured (rows acc)
    /\ winner acc.
Proof.
  intros Hmono Hunb Hfill.
  destruct (sweep_measures clock rand data_filepath fill (sorted killobytes_list)
              Hmono Hunb Hfill sorted_killobytes_positive (mkSweep [] 0 0%Q [])
              (mkWorld (Validation.ensure_dirs [data_filepath; perf_filepath] (fs w))
                       (ticks w) (draws w)))
    as (fuel & acc & w1 & new & Hrun & Hrows & Hkbs & Hmeas & Hinv).
  { left. cbn. split; [reflexivity | lra]. }
  cbn [rows app] in Hrows. subst new.
  exists fuel, acc. eexists. split; [|split; [|split; [|split]]].
  - intros fuel' Hle. unfold create_byte_array_high_throughput.
    rewrite ValidationFacts.validate_kwargs_accepts
      by (unfold DURATION, ITERATIONS; (lra || lia)).
    rewrite (Hrun fuel' Hle). reflexivity.
  - unfold with_fs. cbn [fs files]. apply lookup_insert_eq.
  - exact Hkbs.
  - exact Hmeas.
  - destruct Hinv as [[Hnil _] | Hw]; [|exact Hw].
    exfalso. rewrite Hnil in Hkbs.
    rewrite sorted_killobytes_list_value in Hkbs. discriminate.
Qed.



(** X16.  For an admissible fill and a clock that never goes back and passes
    every instant, every row of the table the benchmark writes records a
    full measurement: at least 10 iterations over at least 5 seconds, with
    the rate computed from the bytes those iterations wrote. *)
Theorem benchmark_rows_are_full_measurements (clock : nat -> Q)
    (rand : nat -> Byte.byte) (to_csv : list Row -> list Z)
    (data_filepath perf_filepath : string) (fill : Z) (w : World) :
  monotone clock -> unbounded clock -> valid_fill fill ->
  exists (fuel : nat) (best : list Z) (table : list Row) (w' : World),
    (forall fuel', (fuel <= fuel')%nat ->
       create_byte_array_high_throughput clock rand to_csv fuel' data_filepath
                                         perf_filepath fill w
       = Some (Return best, w'))
    /\ files (fs w') !! perf_filepath = Some (to_csv table)
    /\ Forall measured table.
Proof.
  intros Hmono Hunb Hfill.
  destruct (benchmark_run clock rand to_csv data_filepath perf_filepath fill w
              Hmono Hunb Hfill) as (fuel & acc & w' & Hrun & Hperf & _ & Hmeas & _).
  exists fuel, (sweetspot_bytearray acc), (rows acc), w'. auto.
Qed.

Lemma benchmark_rows_are_full_measurements_witness :
  exists (fuel : nat) (best : list Z) (table : list Row) (w' : World),
    (forall fuel', (fuel <= fuel')%nat ->
       create_byte_array_high_throughput seconds_clock (fun _ => x00%byte)
         (fun table => map (fun row => kb row mod 256) table) fuel'
         DATA_FILEPATH PERF_FILEPATH (-1) (mkWorld (mkFS ∅ ∅) 0 0)
       = Some (Return best, w'))
    /\ files (fs w') !! PERF_FILEPATH
       = Some (map (fun row => kb row mod 256) table)
    /\ Forall measured table.
Proof.
  apply (benchmark_rows_are_full_measurements seconds_clock (fun _ => x00%byte)
           (fun table => map (fun row => kb row mod 256) table)
           DATA_FILEPATH PERF_FILEPATH (-1) (mkWorld (mkFS ∅ ∅) 0 0)).
  - exact seconds_clock_monotone.
  - exact seconds_clock_unbounded.
  - left. reflexivity.
Defined.

(** X17.  Under the same conditions the buffer the benchmark returns is the
    one measured in the first row of highest rate: every earlier row has a
    strictly lower rate, no later row a higher one, and the buffer has the
    size of that row. *)
Theorem benchmark_returns_first_best_buffer (clock : nat -> Q)
    (rand : nat -> Byte.byte) (to_csv : list Row -> list Z)
    (data_filepath perf_filepath : string) (fill : Z) (w : World) :
  monotone clock -> unbounded clock -> valid_fill fill ->
  exists (fuel : nat) (best : list Z) (table : list Row) (w' : World) (r : Row),
    (forall fuel', (fuel <= fuel')%nat ->
       create_byte_array_high_throughput clock rand to_csv fuel' data_filepath
                                         perf_filepath fill w
       = Some (Return best, w'))
    /\ files (fs w') !! perf_filepath = Some (to_csv table)
    /\ first_best table r
    /\ Z.of_nat (length best) = kb r * 1024.
Proof.
  intros Hmono Hunb Hfill.
  destruct (benchmark_run clock rand to_csv data_filepath perf_filepath fill w
              Hmono Hunb Hfill)
    as (fuel & acc & w' & Hrun & Hperf & _ & _ & r & Hbest & _ & _ & Hlen).
  exists fuel, (sweetspot_bytearray acc), (rows acc), w', r. auto.
Qed.

Lemma benchmark_returns_first_best_buffer_witness :
  exists (fuel : nat) (best : list Z) (table : list Row) (w' : World) (r : Row),
    (forall fuel', (fuel <= fuel')%nat ->
       create_byte_array_high_throughput seconds_clock (fun _ => x00%byte)
         (fun table => map (fun row => kb row mod 256) table) fuel'
         DATA_FILEPATH PERF_FILEPATH 65 (mkWorld (mkFS ∅ ∅) 0 0)
       = Some (Return best, w'))
    /\ files (fs w') !! PERF_FILEPATH
       = Some (map (fun row => kb row mod 256) table)
    /\ first_best table r
    /\ Z.of_nat (length best) = kb r * 1024.
Proof.
  apply (benchmark_returns_first_best_buffer seconds_clock (fun _ => x00%byte)
           (fun table => map (fun row => kb row mod 256) table)
           DATA_FILEPATH PERF_FILEPATH 65 (mkWorld (mkFS ∅ ∅) 0 0)).
  - exact seconds_clock_monotone.
  - exact seconds_clock_unbounded.
  - right. lia.
Defined.

Lemma create_bytearray_killobytes_invalid_fill (rand : nat -> Byte.byte)
    (count fill : Z) (s : nat) :
  fill <> -1 -> fill < 0 \/ 255 < fill ->
  BufferFactory.create_bytearray_killobytes rand count fill s = (Raise ValueError, s).
Proof.
  intros Hs Hf. unfold BufferFactory.create_bytearray_killobytes.
  rewrite BufferFactoryFacts.create_bytearray_invalid by (lia || assumption).
  reflexivity.
Qed.

(** With a fill no byte can hold the benchmark stops when it builds its first
    buffer. *)
Lemma benchmark_invalid_fill_run (clock : nat -> Q) (rand : nat -> Byte.byte)
    (to_csv : list Row -> list Z) (fuel : nat)
    (data_filepath perf_filepath : string) (fill : Z) (w : World) :
  fill <> -1 -> fill < 0 \/ 255 < fill ->
  create_byte_array_high_throughput clock rand to_csv fuel data_filepath
                                    perf_filepath fill w
  = Some (Raise ValueError,
          mkWorld (Validation.ensure_dirs [data_filepath; perf_filepath] (fs w))
                  (ticks w) (draws w)).
Proof.
  intros Hs Hf. unfold create_byte_array_high_throughput.
  rewrite ValidationFacts.validate_kwargs_accepts
    by (unfold DURATION, ITERATIONS; (lra || lia)).
  rewrite sorted_killobytes_list_value.
  rewrite sweep_invalid_fill by assumption.
  reflexivity.
Qed.

(** X18.  With a fill that is neither -1 nor a byte the benchmark raises
    [ValueError] without having measured anything: no file is created or
    changed, no time is read and no random number drawn. *)
Theorem benchmark_invalid_fill_writes_nothing (clock : nat -> Q)
    (rand : nat -> Byte.byte) (to_csv : list Row -> list Z) (fuel : nat)
    (data_filepath perf_filepath : string) (fill : Z) (w : World) :
  fill <> -1 -> fill < 0 \/ 255 < fill ->
  exists w' : World,
    create_byte_array_high_throughput clock rand to_csv fuel data_filepath
                                      perf_filepath fill w
    = Some (Raise ValueError, w')
    /\ files (fs w') = files (fs w)
    /\ ticks w' = ticks w
    /\ draws w' = draws w.
Proof.
  intros Hs Hf. eexists. split.
  - apply benchmark_invalid_fill_run; assumption.
  - cbn [fs ticks draws]. rewrite ValidationFacts.ensure_dirs_files.
    repeat split.
Qed.

Lemma benchmark_invalid_fill_writes_nothing_witness :
  exists w' : World,
    create_byte_array_high_throughput seconds_clock (fun _ => x00%byte)
      (fun table => map (fun row => kb row mod 256) table) 7
      DATA_FILEPATH PERF_FILEPATH 300 (mkWorld (mkFS ∅ ∅) 0 0)
    = Some (Raise ValueError, w')
    /\ files (fs w') = files (fs (mkWorld (mkFS ∅ ∅) 0 0))
    /\ ticks w' = ticks (mkWorld (mkFS ∅ ∅) 0 0)
    /\ draws w' = draws (mkWorld (mkFS ∅ ∅) 0 0).
Proof.
  apply (benchmark_invalid_fill_writes_nothing seconds_clock (fun _ => x00%byte)
           (fun table => map (fun row => kb row mod 256) table) 7
           DATA_FILEPATH PERF_FILEPATH 300 (mkWorld (mkFS ∅ ∅) 0 0)); lia.
Defined.

End BenchmarkMore.

(** * Properties of the command line *)

Module MainFacts.
Import Main BenchmarkSpec ContinuousWriter ContinuousWriterSpec
       ContinuousWriterFacts.

Lemma operation_known (c : command) : str_in (operation c) OPERATIONS = true.
Proof. destruct c; reflexivity. Qed.

Lemma with_world_same (mc : Machine) :
  with_world (mkWorld (fs (world mc)) (ticks (world mc)) (draws (world mc))) mc = mc.
Proof. destruct mc as [[fs0 t s] f o tr]. reflexivity. Qed.

Lemma validate_kwargs_accepts_all
    (operation log_level : string) (fill size : Z) (duration : Q)
    (iterations : Z) (data_filepath perf_filepath : string) (fs0 : FS) :
  str_in operation OPERATIONS = true -> str_in log_level LOG_LEVELS = true ->
  1 <= size -> (0 <= duration)%Q -> 0 <= iterations ->
  Validation.validate_kwargs operation log_level fill size duration iterations
                             data_filepath perf_filepath fs0
  = (Return tt, Validation.ensure_dirs [data_filepath; perf_filepath] fs0).
Proof.
  intros Hop Hll Hsz Hd Hi. unfold Validation.validate_kwargs.
  rewrite Hop, Hll. cbn [negb].
  replace (size <? 1) with false by (symmetry; apply Z.ltb_ge; lia).
  rewrite ValidationFacts.fill_guard_dead.
  replace (Qlt_bool duration 0) with false
    by (symmetry; apply ValidationFacts.Qlt_bool_false_iff; exact Hd).
  replace (iterations <? 0) with false by (symmetry; apply Z.ltb_ge; lia).
  reflexivity.
Qed.

Lemma length_concat_repeat (block : list Z) (k : nat) :
  length (concat (repeat block k)) = (k * length block)%nat.
Proof.
  induction k as [|k IH]; cbn [repeat concat]; [reflexivity|].
  rewrite length_app, IH. lia.
Qed.

(** X19.  Whatever the sub-command, a fill that is neither -1 nor a byte
    makes the program fail before any file is created, truncated or written
    and before the monitor thread is started: validation lets it pass, and
    the first buffer that is built raises [ValueError]. *)
Theorem main_invalid_fill_touches_no_file (clock : nat -> Q)
    (rand : nat -> Byte.byte) (to_csv : list Benchmark.Row -> list Z)
    (faults : nat -> ContiguousFiller.fault) (fuel : nat) (args : Args)
    (mc : Machine) :
  fill args <> -1 -> fill args < 0 \/ 255 < fill args ->
  exists mc' : Machine,
    main clock rand to_csv faults fuel args mc
    = Some (Raise (if str_in (log_level args) LOG_LEVELS
                   then ValueError else KeyError), mc')
    /\ files (fs (world mc')) = files (fs (world mc))
    /\ ticks (world mc') = ticks (world mc)
    /\ drive_free mc' = drive_free mc
    /\ drive_trace mc' = drive_trace mc.
Proof.
  intros Hs Hf. unfold main.
  destruct (Validation.validate_kwargs _ _ _ _ _ _ _ _ _)
    as [[[] | e] fs0] eqn:E.
  - apply ValidationMore.validate_kwargs_return_inv in E as (-> & _ & Hll & _).
    rewrite Hll.
    destruct (cmd args) as [| size | | size duration iterations].
    + cbn [world with_world].
      rewrite BenchmarkMore.benchmark_invalid_fill_run by assumption.
      eexists. split; [reflexivity|].
      cbn [world with_world fs ticks drive_free drive_trace].
      rewrite !ValidationFacts.ensure_dirs_files. repeat split.
    + unfold make_buffer. cbn [world with_world fs ticks draws].
      rewrite BenchmarkMore.create_bytearray_killobytes_invalid_fill by assumption.
      eexists. split; [reflexivity|].
      cbn [world with_world fs ticks drive_free drive_trace].
      rewrite ValidationFacts.ensure_dirs_files. repeat split.
    + cbn [world with_world].
      rewrite BenchmarkMore.benchmark_invalid_fill_run by assumption.
      eexists. split; [reflexivity|].
      cbn [world with_world fs ticks drive_free drive_trace].
      rewrite !ValidationFacts.ensure_dirs_files. repeat split.
    + unfold make_buffer. cbn [world with_world fs ticks draws].
      rewrite BenchmarkMore.create_bytearray_killobytes_invalid_fill by assumption.
      eexists. split; [reflexivity|].
      cbn [world with_world fs ticks drive_free drive_trace].
      rewrite ValidationFacts.ensure_dirs_files. repeat split.
  - apply ValidationMore.validate_kwargs_raise_inv in E as [-> ->].
    rewrite operation_known. cbn [andb].
    eexists. split; [reflexivity|]. cbn [world with_world fs ticks drive_free drive_trace].
    repeat split.
Qed.

Lemma main_invalid_fill_touches_no_file_witness :
  exists mc' : Machine,
    main seconds_clock (fun _ => x00%byte)
         (fun table => map (fun row => Benchmark.kb row mod 256) table)
         (fun _ => ContiguousFiller.NoFault) 9
         (mkArgs (Fill 4) DATA_FILEPATH PERF_FILEPATH 300 "INFO"%string)
         (mkMachine (mkWorld (mkFS ∅ ∅) 0 0) 4096 0 [])
    = Some (Raise (if str_in (log_level (mkArgs (Fill 4) DATA_FILEPATH
                                           PERF_FILEPATH 300 "INFO"%string))
                             LOG_LEVELS
                   then ValueError else KeyError), mc')
    /\ files (fs (world mc'))
       = files (fs (world (mkMachine (mkWorld (mkFS ∅ ∅) 0 0) 4096 0 [])))
    /\ ticks (world mc') = ticks (world (mkMachine (mkWorld (mkFS ∅ ∅) 0 0) 4096 0 []))
    /\ drive_free mc' = drive_free (mkMachine (mkWorld (mkFS ∅ ∅) 0 0) 4096 0 [])
    /\ drive_trace mc' = drive_trace (mkMachine (mkWorld (mkFS ∅ ∅) 0 0) 4096 0 []).
Proof.
  apply (main_invalid_fill_touches_no_file seconds_clock (fun _ => x00%byte)
           (fun table => map (fun row => Benchmark.kb row mod 256) table)
           (fun _ => ContiguousFiller.NoFault) 9
           (mkArgs (Fill 4) DATA_FILEPATH PERF_FILEPATH 300 "INFO"%string)
           (mkMachine (mkWorld (mkFS ∅ ∅) 0 0) 4096 0 []));
    cbn; lia.
Defined.

(** X20.  A size below 1, a negative duration or iteration count, or an
    unknown log level stops the program at validation: the machine is left
    exactly as it was, not even a directory is created. *)
Theorem main_rejects_arguments_untouched (clock : nat -> Q)
    (rand : nat -> Byte.byte) (to_csv : list Benchmark.Row -> list Z)
    (faults : nat -> ContiguousFiller.fault) (fuel : nat) (args : Args)
    (mc : Machine) :
  str_in (log_level args) LOG_LEVELS = false
    \/ size_of (cmd args) < 1
    \/ (duration_of (cmd args) < 0)%Q
    \/ iterations_of (cmd args) < 0 ->
  main clock rand to_csv faults fuel args mc
  = Some (Raise (if str_in (log_level args) LOG_LEVELS
                 then ValueError else KeyError), mc).
Proof.
  intros H. unfold main.
  destruct (ValidationMore.validate_kwargs_invalid_raises
              (operation (cmd args)) (log_level args) (fill args)
              (size_of (cmd args)) (duration_of (cmd args))
              (iterations_of (cmd args)) (data_filepath args) (perf_filepath args)
              (fs (world mc))) as (e & fs1 & E); [right; exact H|].
  rewrite E. apply ValidationMore.validate_kwargs_raise_inv in E as [-> ->].
  rewrite operation_known. cbn [andb]. rewrite with_world_same. reflexivity.
Qed.

Lemma main_rejects_arguments_untouched_witness :
  main seconds_clock (fun _ => x00%byte)
       (fun table => map (fun row => Benchmark.kb row mod 256) table)
       (fun _ => ContiguousFiller.NoFault) 9
       (mkArgs (Loop 0 5 10) DATA_FILEPATH PERF_FILEPATH (-1) "INFO"%string)
       (mkMachine (mkWorld (mkFS ∅ ∅) 0 0) 4096 0 [])
  = Some (Raise (if str_in (log_level (mkArgs (Loop 0 5 10) DATA_FILEPATH
                                        PERF_FILEPATH (-1) "INFO"%string))
                           LOG_LEVELS
                 then ValueError else KeyError),
          mkMachine (mkWorld (mkFS ∅ ∅) 0 0) 4096 0 []).
Proof.
  apply (main_rejects_arguments_untouched seconds_clock (fun _ => x00%byte)
           (fun table => map (fun row => Benchmark.kb row mod 256) table)
           (fun _ => ContiguousFiller.NoFault) 9
           (mkArgs (Loop 0 5 10) DATA_FILEPATH PERF_FILEPATH (-1) "INFO"%string)
           (mkMachine (mkWorld (mkFS ∅ ∅) 0 0) 4096 0 [])).
  right. left. cbn. lia.
Defined.

(** X21.  [loop] with admissible arguments, under a clock that never goes
    back and passes every instant, ends, either normally or with the
    [ZeroDivisionError] of a zero elapsed time; the data file then holds a
    whole number of buffers of [size] KiB, at least [iterations] of them. *)
Theorem main_loop_writes_whole_buffers (clock : nat -> Q)
    (rand : nat -> Byte.byte) (to_csv : list Benchmark.Row -> list Z)
    (faults : nat -> ContiguousFiller.fault) (args : Args) (mc : Machine)
    (size duration iterations : Z) :
  cmd args = Loop size duration iterations ->
  str_in (log_level args) LOG_LEVELS = true -> valid_fill (fill args) ->
  1 <= size -> 0 <= duration -> 0 <= iterations ->
  monotone clock -> unbounded clock ->
  exists (fuel k : nat) (out : result unit) (mc' : Machine) (content : list Z),
    main clock rand to_csv faults fuel args mc = Some (out, mc')
    /\ (out = Return tt \/ out = Raise ZeroDivisionError)
    /\ iterations <= Z.of_nat k
    /\ files (fs (world mc')) !! data_filepath args = Some content
    /\ Z.of_nat (length content) = Z.of_nat k * (size * 1024).
Proof.
  intros Hcmd Hll Hfill Hsz Hd Hi Hmono Hunb.
  destruct (BenchmarkFacts.create_bytearray_killobytes_returns rand size
              (fill args) (draws (world mc)) Hfill) as (byte_array & s' & Hbuf).
  pose proof (BenchmarkMore.killobytes_buffer_length rand size (fill args)
                (draws (world mc)) s' byte_array ltac:(lia) Hbuf) as Hlen.
  assert (Hdq : (0 <= inject_Z duration)%Q)
    by (change 0%Q with (inject_Z 0); rewrite <- Zle_Qle; exact Hd).
  set (w1 := mkWorld (Validation.ensure_dirs [data_filepath args; perf_filepath args]
                        (fs (world mc)))
                     (ticks (world mc)) s').
  destruct (write_byte_array_continuously_terminates clock byte_array
              (data_filepath args) (inject_Z duration) iterations w1 Hdq Hi Hmono Hunb)
    as (fuel & k & Hrun & Hits & _ & _).
  exists fuel, k.
  exists (match run_outcome clock byte_array w1 k with
          | Return _ => Return tt
          | Raise e => Raise e
          end),
         (with_world (finished k (data_filepath args) byte_array w1)
            (with_world w1 mc)),
         (concat (repeat byte_array k)).
  split; [|split; [|split; [|split]]].
  - unfold main. rewrite Hcmd. cbn [operation size_of duration_of iterations_of].
    rewrite validate_kwargs_accepts_all by (assumption || reflexivity).
    unfold make_buffer. cbn [world with_world fs ticks draws].
    rewrite Hbuf. cbn [world with_world].
    fold w1. rewrite (Hrun fuel (Nat.le_refl _)).
    destruct (run_outcome clock byte_array w1 k) as [[[b e] i] | e]; reflexivity.
  - unfold run_outcome. destruct (Qeq_bool _ 0); [right | left]; reflexivity.
  - exact Hits.
  - cbn [world with_world]. unfold finished. cbn [fs].
    rewrite (ContinuousWriterFacts.written_content _ _ byte_array []); [reflexivity|].
    unfold loop_start, open_wb. cbn [fs files]. apply lookup_insert_eq.
  - rewrite length_concat_repeat. lia.
Qed.

Lemma main_loop_writes_whole_buffers_witness :
  exists (fuel k : nat) (out : result unit) (mc' : Machine) (content : list Z),
    main seconds_clock (fun _ => x00%byte)
         (fun table => map (fun row => Benchmark.kb row mod 256) table)
         (fun _ => ContiguousFiller.NoFault) fuel
         (mkArgs (Loop 2 1 3) DATA_FILEPATH PERF_FILEPATH 0 "INFO"%string)
         (mkMachine (mkWorld (mkFS ∅ ∅) 0 0) 4096 0 []) = Some (out, mc')
    /\ (out = Return tt \/ out = Raise ZeroDivisionError)
    /\ 3 <= Z.of_nat k
    /\ files (fs (world mc'))
         !! data_filepath (mkArgs (Loop 2 1 3) DATA_FILEPATH PERF_FILEPATH 0
                                  "INFO"%string) = Some content
    /\ Z.of_nat (length content) = Z.of_nat k * (2 * 1024).
Proof.
  apply (main_loop_writes_whole_buffers seconds_clock (fun _ => x00%byte)
           (fun table => map (fun row => Benchmark.kb row mod 256) table)
           (fun _ => ContiguousFiller.NoFault)
           (mkArgs (Loop 2 1 3) DATA_FILEPATH PERF_FILEPATH 0 "INFO"%string)
           (mkMachine (mkWorld (mkFS ∅ ∅) 0 0) 4096 0 []) 2 1 3).
  - reflexivity.
  - reflexivity.
  - right. cbn. lia.
  - lia.
  - lia.
  - lia.
  - exact seconds_clock_monotone.
  - exact seconds_clock_unbounded.
Defined.

(** X22.  [fill] with admissible arguments and no fault returns normally
    with the drive filled to within 1 MiB and to within one buffer of
    [size] KiB. *)
Theorem main_fill_fills_the_drive (clock : nat -> Q)
    (rand : nat -> Byte.byte) (to_csv : list Benchmark.Row -> list Z)
    (args : Args) (mc : Machine) (size : Z) :
  cmd args = Fill size ->
  str_in (log_level args) LOG_LEVELS = true -> valid_fill (fill args) ->
  1 <= size ->
  exists (fuel : nat) (mc' : Machine),
    main clock rand to_csv ContiguousFillerSpec.no_faults fuel args mc
    = Some (Return tt, mc')
    /\ drive_free mc' <= ContiguousFiller.one_mb_bytes
    /\ drive_free mc' <= size * 1024
    /\ drive_free mc' <= drive_free mc.
Proof.
  intros Hcmd Hll Hfill Hsz.
  destruct (BenchmarkFacts.create_bytearray_killobytes_returns rand size
              (fill args) (draws (world mc)) Hfill) as (byte_array & s' & Hbuf).
  pose proof (BenchmarkMore.killobytes_buffer_length rand size (fill args)
                (draws (world mc)) s' byte_array ltac:(lia) Hbuf) as Hlen.
  set (mc1 := with_world
                (mkWorld (Validation.ensure_dirs
                            [data_filepath args; perf_filepath args] (fs (world mc)))
                         (ticks (world mc)) s')
                (with_world
                   (mkWorld (Validation.ensure_dirs
                               [data_filepath args; perf_filepath args]
                               (fs (world mc)))
                            (ticks (world mc)) (draws (world mc))) mc)).
  destruct (ContiguousFillerMore.undisturbed_fill_run byte_array (data_filepath args)
              (drive_of mc1)) as (d' & Hrun & Hdown & Hbuffer & _); [lia|].
  pose proof (ContiguousFillerMore.undisturbed_fill_run byte_array (data_filepath args)
                (drive_of mc1) ltac:(lia)) as (d2 & Hrun2 & _ & _ & Hend).
  rewrite Hrun in Hrun2. injection Hrun2 as <-.
  exists (S (Z.to_nat (drive_free mc))), (with_drive d' mc1).
  split; [|split; [|split]].
  - unfold main. rewrite Hcmd. cbn [operation size_of duration_of iterations_of].
    rewrite validate_kwargs_accepts_all
      by (assumption || reflexivity || (unfold DURATION; lra) || (unfold ITERATIONS; lia)).
    unfold make_buffer. cbn [world with_world fs ticks draws].
    rewrite Hbuf. fold mc1. unfold fill_drive.
    change (ContiguousFiller.free (drive_of mc1)) with (drive_free mc) in Hrun.
    rewrite Hrun. reflexivity.
  - cbn [with_drive drive_free].
    assert (Hmb : 0 < ContiguousFiller.one_mb_bytes)
      by (unfold ContiguousFiller.one_mb_bytes; lia).
    destruct Hend as [H | H]; [exact H|].
    pose proof (Z.mod_pos_bound (Z.of_nat (length byte_array))
                  ContiguousFiller.one_mb_bytes Hmb) as Hmod.
    pose proof (Z.div_mod (Z.of_nat (length byte_array))
                  ContiguousFiller.one_mb_bytes) as Hdm.
    lia.
  - cbn [with_drive drive_free]. lia.
  - cbn [with_drive drive_free]. exact Hdown.
Qed.

Lemma main_fill_fills_the_drive_witness :
  exists (fuel : nat) (mc' : Machine),
    main seconds_clock (fun _ => x00%byte)
         (fun table => map (fun row => Benchmark.kb row mod 256) table)
         ContiguousFillerSpec.no_faults fuel
         (mkArgs (Fill 1) DATA_FILEPATH PERF_FILEPATH 0 "INFO"%string)
         (mkMachine (mkWorld (mkFS ∅ ∅) 0 0) 4096 0 [])
    = Some (Return tt, mc')
    /\ drive_free mc' <= ContiguousFiller.one_mb_bytes
    /\ drive_free mc' <= 1 * 1024
    /\ drive_free mc' <= drive_free (mkMachine (mkWorld (mkFS ∅ ∅) 0 0) 4096 0 []).
Proof.
  apply (main_fill_fills_the_drive seconds_clock (fun _ => x00%byte)
           (fun table => map (fun row => Benchmark.kb row mod 256) table)
           (mkArgs (Fill 1) DATA_FILEPATH PERF_FILEPATH 0 "INFO"%string)
           (mkMachine (mkWorld (mkFS ∅ ∅) 0 0) 4096 0 []) 1).
  - reflexivity.
  - reflexivity.
  - right. cbn. lia.
  - lia.
Defined.

End MainFacts.
